(** * poc-visual-editor: the inline-edit plugin

    A shallow embedding of [poc-preview/vite-inline-edit-plugin.js] (the
    stamping [transform] hook and the [/api/apply-edit] handler), of the
    identifier codec [parseEditId], of the left-splitting
    [parseEditId] of [poc-backend/server.js], of the page listener
    [poc-preview/src/inline-edit-listener.ts] and of the offset helper
    [getLineColFromOffset] of the plan.

    Conventions.
    - A JavaScript string is a [string]: the sequence of its UTF-8 bytes.
      The operations used by the plugin ([split], [join], [includes],
      [startsWith], [parseInt]) only look for ASCII patterns, apart from
      the white space skipped by [parseInt], which is spelled out in its
      UTF-8 form.
    - A JavaScript number holding a line or a column is a [Z]; [None]
      stands for [NaN].  Source positions are far below 2^53, where
      [Number] arithmetic and printing are exact and plain decimal.
      [parseInt] returns the exact value of the digits it reads, where
      JavaScript rounds a run of digits too long for a [Number].
    - The body of a request is what [JSON.parse] makes of it: its two
      fields hold any JSON value, and the text of a node holds what the
      handler assigns to it, a string or not.
    - [@babel/parser], [@babel/generator], [fs] and Node's [path] are
      outside the repository.  Parser and generator are parameters of the
      development; [path.resolve]/[path.relative] follow Node's POSIX
      algorithm; the file system is a finite map from absolute paths to
      contents together with a log of the calls made. *)

From Stdlib Require Import ZArith NArith Ascii String List Lia Bool.
From Stdlib Require Import DecimalString DecimalN.
From stdpp Require Import gmap strings list.

Set Warnings "-register-all".

Local Open Scope string_scope.
Local Open Scope Z_scope.

(** ** JavaScript string primitives *)

Module Js.

(** [s.split(sep)] for a one-character separator: never empty, and
    [("").split(sep)] is [[""]]. *)
Fixpoint split (sep : ascii) (s : string) : list string :=
  match s with
  | EmptyString => [EmptyString]
  | String c r =>
      if Ascii.eqb c sep then EmptyString :: split sep r
      else match split sep r with
           | h :: t => String c h :: t
           | [] => [String c EmptyString]
           end
  end.

(** [parts.join(sep)]. *)
Definition join (sep : string) (parts : list string) : string :=
  String.concat sep parts.

(** [parts.pop()]: the last element and the array without it; [None] is
    [undefined] on an empty array. *)
Definition pop {A} (l : list A) : option (A * list A) :=
  match rev l with
  | [] => None
  | x :: r => Some (x, rev r)
  end.

(** [s.startsWith(p)]. *)
Definition startsWith (p s : string) : bool := String.prefix p s.

(** [s.includes(p)]. *)
Fixpoint includes (p s : string) : bool :=
  String.prefix p s ||
  match s with
  | EmptyString => false
  | String _ r => includes p r
  end.

(** [s.endsWith(p)]. *)
Fixpoint endsWith (p s : string) : bool :=
  String.eqb p s ||
  match s with
  | EmptyString => false
  | String _ r => endsWith p r
  end.

(** [!s] for a string: only the empty string is falsy. *)
Definition falsy (s : string) : bool :=
  match s with EmptyString => true | _ => false end.

Definition code (c : ascii) : N := N_of_ascii c.

Definition is_digit (c : ascii) : bool :=
  ((48 <=? code c) && (code c <=? 57))%N.

(** White space and line terminators of ECMAScript ([StrWhiteSpaceChar]),
    by the length of their UTF-8 encoding. *)
Definition is_ws1 (a : ascii) : bool :=
  ((9 <=? code a) && (code a <=? 13) || (code a =? 32))%N.

(** U+00A0. *)
Definition is_ws2 (a b : ascii) : bool :=
  ((code a =? 194) && (code b =? 160))%N.

(** U+1680, U+2000..U+200A, U+2028, U+2029, U+202F, U+205F, U+3000, U+FEFF. *)
Definition is_ws3 (a b c : ascii) : bool :=
  ((code a =? 225) && (code b =? 154) && (code c =? 128)
   || (code a =? 226) && (code b =? 128)
      && ((128 <=? code c) && (code c <=? 138)
          || (code c =? 168) || (code c =? 169) || (code c =? 175))
   || (code a =? 226) && (code b =? 129) && (code c =? 159)
   || (code a =? 227) && (code b =? 128) && (code c =? 128)
   || (code a =? 239) && (code b =? 187) && (code c =? 191))%N.

(** The leading white space [parseInt] skips. *)
Fixpoint trimStart (s : string) : string :=
  match s with
  | String a r1 =>
      if is_ws1 a then trimStart r1
      else match r1 with
           | String b r2 =>
               if is_ws2 a b then trimStart r2
               else match r2 with
                    | String c r3 => if is_ws3 a b c then trimStart r3 else s
                    | EmptyString => s
                    end
           | EmptyString => s
           end
  | EmptyString => s
  end.

(** The longest prefix of decimal digits. *)
Fixpoint digits_prefix (s : string) : string :=
  match s with
  | String c r => if is_digit c then String c (digits_prefix r) else EmptyString
  | EmptyString => EmptyString
  end.

(** The integer a string of decimal digits denotes. *)
Definition digits_value (ds : string) : option Z :=
  match NilEmpty.uint_of_string ds with
  | Some d => Some (Z.of_N (N.of_uint d))
  | None => None
  end.

(** The sign [parseInt] reads in front of the digits. *)
Definition sign_of (s : string) : Z :=
  match s with
  | String c _ => if Ascii.eqb c "-" then -1 else 1
  | EmptyString => 1
  end.

Definition strip_sign (s : string) : string :=
  match s with
  | String c r => if Ascii.eqb c "-" || Ascii.eqb c "+" then r else s
  | EmptyString => s
  end.

(** [parseInt(s, 10)]: skip white space, read an optional sign, then the
    longest run of digits; [NaN] when that run is empty.  Whatever follows
    the digits is ignored. *)
Definition parseInt (s : string) : option Z :=
  let s1 := trimStart s in
  match digits_prefix (strip_sign s1) with
  | EmptyString => None
  | ds => option_map (Z.mul (sign_of s1)) (digits_value ds)
  end.

(** [isNaN(x)]. *)
Definition isNaN (x : option Z) : bool :=
  match x with None => true | Some _ => false end.

(** [String(n)] for an integral number, as a template literal prints it. *)
Definition number_to_string (z : Z) : string :=
  if z <? 0 then String "-" (NilEmpty.string_of_uint (N.to_uint (Z.abs_N z)))
  else NilEmpty.string_of_uint (N.to_uint (Z.to_N z)).

End Js.

(** ** The identifier codec *)

Module Codec.

(** The identifier the stamping pass builds:
    [`${webRelativeFilePath}:${line}:${column}`]. *)
Definition formatEditId (filePath : string) (line column : Z) : string :=
  filePath ++ ":" ++ Js.number_to_string line ++ ":" ++ Js.number_to_string column.

(** [parseEditId] of the plugin: split on [:], pop column then line, and
    rejoin what is left as the path. *)
Definition parseEditId (editId : string) : option (string * Z * Z) :=
  let parts := Js.split ":" editId in
  if (length parts <? 3)%nat then None
  else
    match Js.pop parts with
    | None => None
    | Some (columnStr, parts1) =>
        match Js.pop parts1 with
        | None => None
        | Some (lineStr, parts2) =>
            let filePath := Js.join ":" parts2 in
            let line := Js.parseInt lineStr in
            let column := Js.parseInt columnStr in
            if Js.falsy filePath || Js.isNaN line || Js.isNaN column then None
            else
              match line, column with
              | Some l, Some c => Some (filePath, l, c)
              | _, _ => None
              end
        end
    end.

(** [parseEditId] of [poc-backend/server.js]: the first three parts of the
    split, with no validation; a missing part is [undefined], whose
    [parseInt] is [NaN]. *)
Record backendEditId := {
  backend_filePath : string;
  backend_line : option Z;
  backend_column : option Z }.

Definition parseEditId_backend (editId : string) : backendEditId :=
  let parts := Js.split ":" editId in
  let part (i : nat) := nth_error parts i in
  {| backend_filePath := default "" (part 0%nat);
     backend_line := part 1%nat ≫= Js.parseInt;
     backend_column := part 2%nat ≫= Js.parseInt |}.

End Codec.

(** ** Vocabulary for the statements *)

(** A string is free of [sep] when no character of it is [sep]. *)
Fixpoint sep_free (sep : ascii) (s : string) : bool :=
  match s with
  | EmptyString => true
  | String c r => negb (Ascii.eqb c sep) && sep_free sep r
  end.

(** Printed numbers: digits, after an optional minus sign. *)
Fixpoint all_digits (s : string) : bool :=
  match s with
  | EmptyString => true
  | String c r => Js.is_digit c && all_digits r
  end.


(** A part of an identifier is numeric when it is a decimal numeral: an
    optional sign and at least one digit, nothing else. *)
Definition numeric (s : string) : bool :=
  let ds := Js.strip_sign s in
  negb (Js.falsy ds) && all_digits ds.

(** ** Node's [path] module, POSIX flavour *)

Module Path.

(** One step of [normalizeString] (with [allowAboveRoot = false]): empty
    and [.] segments are dropped, [..] removes the segment before it, and
    is itself dropped at the root. *)
Definition normalize_step (stack : list string) (seg : string) : list string :=
  if String.eqb seg "" || String.eqb seg "." then stack
  else if String.eqb seg ".." then removelast stack
  else (stack ++ [seg])%list.

Definition normalize (segs : list string) : list string :=
  fold_left normalize_step segs [].

(** The segments of an absolute path. *)
Definition segments (p : string) : list string :=
  normalize (Js.split "/" p).

Definition of_segments (segs : list string) : string :=
  String "/" (Js.join "/" segs).

(** [path.resolve(from, to)] for an absolute [from]: an absolute [to]
    stands alone, a relative one is appended to [from]; the result is
    normalized and has no trailing slash. *)
Definition resolve (from to : string) : string :=
  let joined := if Js.startsWith "/" to then to else from ++ "/" ++ to in
  of_segments (segments joined).

Fixpoint strip_common (a b : list string) : list string * list string :=
  match a, b with
  | x :: a', y :: b' => if String.eqb x y then strip_common a' b' else (a, b)
  | _, _ => (a, b)
  end.

(** [path.relative(from, to)] for absolute paths: one [..] for each
    segment of [from] below the common ancestor, then the rest of [to]. *)
Definition relative (from to : string) : string :=
  let '(up, down) := strip_common (segments from) (segments to) in
  Js.join "/" (map (fun _ => "..") up ++ down)%list.

(** [path.sep]. *)
Definition sep : ascii := "/"%char.

End Path.

(** ** JSON values *)

Module Json.

(** A number as [JSON.parse] returns it: a double that is not [NaN]. *)
Inductive number :=
| Zero (negative : bool)
| Finite (negative : bool) (mantissa : positive) (exponent : Z)
| Infinite (negative : bool).

(** What [JSON.parse] can put in a field of an object: a string, or
    another JSON value. *)
Inductive other :=
| Null
| Boolean (b : bool)
| Number (x : number)
| Array (items : list value)
| Object (members : list (string * value))
with value :=
| Text (s : string)
| NotText (v : other).

(** [!!v] for a value that is not a string: [null], [false] and the two
    zeros are falsy, every array and object is truthy. *)
Definition truthy (v : other) : bool :=
  match v with
  | Null => false
  | Boolean b => b
  | Number (Zero _) => false
  | Number _ => true
  | Array _ => true
  | Object _ => true
  end.

End Json.

Coercion Json.Text : string >-> Json.value.

(** ** The syntax tree *)

Module Ast.

(** [node.loc.start]: 1-based line, 0-based column. *)
Record position := { line : Z; column : Z }.

(** The name of an attribute: [attr.name.name] is a string only for a
    [JSXIdentifier]; under a [JSXNamespacedName] it is another node. *)
Inductive attr_name :=
| JSXIdentifier (name : string)
| JSXNamespacedName (namespace name : string).

(** The part of Babel's tree the plugin looks at.  An opening tag has the
    start position the parser recorded, if any, and its attributes; a
    text node has its [value], a string in a tree from the parser and
    whatever the edit handler assigns to it afterwards, and the source
    text in [extra.raw], which an assignment to [value] leaves as it is.  Every other node kind is
    an [Other] with its child nodes in traversal order; a closing tag
    holds no element and is left out. *)
Inductive node :=
| JSXElement (openingElement : node) (children : list node)
| JSXOpeningElement (loc : option position) (name : string) (attributes : list node)
| JSXAttribute (name : attr_name) (value : option node)
| JSXText (value : Json.value) (raw : string)
| StringLiteral (value : string)
| Other (kind : string) (sub : list node).

(** Where a node sits in its parent: the parent with a hole. *)
Inductive frame :=
| InOpeningElement (children : list node)
| InChildren (openingElement : node) (before after : list node)
| InAttributes (loc : option position) (name : string) (before after : list node)
| InValue (name : attr_name)
| InSub (kind : string) (before after : list node).

(** A [NodePath]: the frames from the node up to the root.  The head is
    the parent ([path.parentPath]). *)
Definition nodePath := list frame.

Definition fill (f : frame) (n : node) : node :=
  match f with
  | InOpeningElement children => JSXElement n children
  | InChildren o before after => JSXElement o (before ++ n :: after)
  | InAttributes l name before after => JSXOpeningElement l name (before ++ n :: after)
  | InValue name => JSXAttribute name (Some n)
  | InSub kind before after => Other kind (before ++ n :: after)
  end.

(** The whole tree, with [n] at the place the path designates. *)
Definition plug (p : nodePath) (n : node) : node :=
  fold_left (fun m f => fill f m) p n.

Section Traversal.

Context {A : Type} (visit : node -> option A).

(** Visit the nodes of a container in order and stop at the first hit;
    the hit comes with the nodes before and after it. *)
Fixpoint visit_list (before l : list node) : option (list node * A * list node) :=
  match l with
  | [] => None
  | x :: rest =>
      match visit x with
      | Some r => Some (before, r, rest)
      | None => visit_list (before ++ [x]) rest
      end
  end.

End Traversal.

Section Locate.

(** The test of the [JSXOpeningElement] visitor of the edit handler. *)
Definition at_position (targetLine targetColumn : Z) (loc : option position) : bool :=
  match loc with
  | Some start => (line start =? targetLine) && (column start + 1 =? targetColumn)
  | None => false
  end.

Context (targetLine targetColumn : Z).

(** [traverse(babelAst, visitor)] with [path.stop()] on the first hit:
    depth first, parents before children, an element's opening tag (and
    what its attributes hold) before its children.  The result is the
    [targetNodePath]: the path and its node. *)
Fixpoint locate (n : node) : option (nodePath * node) :=
  match n with
  | JSXElement o children =>
      match locate o with
      | Some (p, m) => Some ((p ++ [InOpeningElement children])%list, m)
      | None =>
          match visit_list locate [] children with
          | Some (before, (p, m), after) =>
              Some ((p ++ [InChildren o before after])%list, m)
          | None => None
          end
      end
  | JSXOpeningElement l name attributes =>
      if at_position targetLine targetColumn l then Some ([], n)
      else
        match visit_list locate [] attributes with
        | Some (before, (p, m), after) =>
            Some ((p ++ [InAttributes l name before after])%list, m)
        | None => None
        end
  | JSXAttribute name (Some v) =>
      match locate v with
      | Some (p, m) => Some ((p ++ [InValue name])%list, m)
      | None => None
      end
  | JSXAttribute _ None => None
  | JSXText _ _ => None
  | StringLiteral _ => None
  | Other kind sub =>
      match visit_list locate [] sub with
      | Some (before, (p, m), after) =>
          Some ((p ++ [InSub kind before after])%list, m)
      | None => None
      end
  end.

End Locate.

(** [t.isJSXText(child)]. *)
Definition isJSXText (n : node) : bool :=
  match n with JSXText _ _ => true | _ => false end.

(** The loop over [parentElementNode.children]: the first [JSXText] child
    gets [value = newValue]; [None] when the loop ends with
    [modified = false]. *)
Fixpoint setFirstText (newValue : Json.value) (children : list node)
  : option (list node) :=
  match children with
  | [] => None
  | JSXText _ raw :: rest => Some (JSXText newValue raw :: rest)
  | child :: rest => option_map (cons child) (setFirstText newValue rest)
  end.

(** [targetNodePath.parentPath?.node] when it is a [JSXElement]: its
    opening tag, its children, and the path above it.  In a tree from the
    parser the parent of an opening tag is always the element it opens. *)
Definition parentElement (target : nodePath * node)
  : option (node * list node * nodePath) :=
  match target with
  | (InOpeningElement children :: up, o) => Some (o, children, up)
  | (InChildren o before after :: up, m) => Some (o, (before ++ m :: after)%list, up)
  | _ => None
  end.

(** The mutation step: the first text child of the parent element is
    overwritten.  The result is the mutated tree, [None] when the loop
    ends with [modified = false] or is not entered. *)
Definition modifyParent (newValue : Json.value) (target : nodePath * node)
  : option node :=
  match parentElement target with
  | Some (o, children, up) =>
      match setFirstText newValue children with
      | Some children' => Some (plug up (JSXElement o children'))
      | None => None
      end
  | None => None
  end.

(** ** Stamping *)

(** [t.isJSXAttribute(attr) && attr.name.name === 'data-edit-id']. *)
Definition isEditIdAttribute (attr : node) : bool :=
  match attr with
  | JSXAttribute (JSXIdentifier name) _ => String.eqb name "data-edit-id"
  | _ => false
  end.

(** [node.attributes.some(...)]. *)
Definition alreadyHasId (attributes : list node) : bool :=
  existsb isEditIdAttribute attributes.

(** [t.jsxAttribute(t.jsxIdentifier('data-edit-id'), t.stringLiteral(editId))]. *)
Definition idAttribute (editId : string) : node :=
  JSXAttribute (JSXIdentifier "data-edit-id") (Some (StringLiteral editId)).

Section StateTraversal.

Context (visit : node -> nat -> node * nat).

(** Traverse a container, threading the counter. *)
Fixpoint visit_each (l : list node) (count : nat) : list node * nat :=
  match l with
  | [] => ([], count)
  | x :: rest =>
      let '(x', count1) := visit x count in
      let '(rest', count2) := visit_each rest count1 in
      (x' :: rest', count2)
  end.

End StateTraversal.

Section Stamp.

Context (webRelativeFilePath : string).

(** What [enter] pushes on an opening tag: nothing without [node.loc] or
    when an identifier attribute is already there, else the attribute
    built from the tag's start position. *)
Definition newAttribute (l : option position) (attributes : list node) : option node :=
  match l with
  | Some start =>
      if alreadyHasId attributes then None
      else
        Some (idAttribute
                (Codec.formatEditId webRelativeFilePath (line start) (column start + 1)))
  | None => None
  end.

(** The [enter] visitor of [transform], run over the whole tree; the
    counter is [attributesAdded].  The attribute pushed on an opening tag
    comes after the ones already there; it holds no element, so the
    traversal leaves it as it is. *)
Fixpoint stamp (n : node) (attributesAdded : nat) : node * nat :=
  match n with
  | JSXElement o children =>
      let '(o', k1) := stamp o attributesAdded in
      let '(children', k2) := visit_each stamp children k1 in
      (JSXElement o' children', k2)
  | JSXOpeningElement l name attributes =>
      match newAttribute l attributes with
      | Some idAttr =>
          let '(attributes', k) := visit_each stamp attributes (S attributesAdded) in
          (JSXOpeningElement l name (attributes' ++ [idAttr]), k)
      | None =>
          let '(attributes', k) := visit_each stamp attributes attributesAdded in
          (JSXOpeningElement l name attributes', k)
      end
  | JSXAttribute name (Some v) =>
      let '(v', k) := stamp v attributesAdded in
      (JSXAttribute name (Some v'), k)
  | JSXAttribute _ None => (n, attributesAdded)
  | JSXText _ _ => (n, attributesAdded)
  | StringLiteral _ => (n, attributesAdded)
  | Other kind sub =>
      let '(sub', k) := visit_each stamp sub attributesAdded in
      (Other kind sub', k)
  end.

End Stamp.

End Ast.

(** ** The plugin *)

Module Plugin.

Import Ast.

(** *** The world the handler runs in *)

Inductive fs_call :=
| ReadFile (path : string)
| WriteFile (path content : string).

(** The files by absolute path, and the [fs] calls made so far. *)
Record world := {
  files : gmap string string;
  calls : list fs_call }.

(** What the handler sends: [res.writeHead(status)] with a JSON body. *)
Inductive response :=
| Failure (status : Z) (error : string)
| Success (filePath newContent : string).

Inductive reply :=
| Next
| Sent (r : response).

(** The request of [/api/apply-edit].  The body is what
    [const { editId, newValue } = JSON.parse(body)] makes of it.  It
    throws ([Unparsable]) when the text is not JSON or is [null]; any
    other text yields the two fields, each [undefined] ([None]: the key
    is not there, or the text is not an object) or a JSON value.
    [Fields] is a body whose [editId] is a string or [undefined],
    [NonStringId] one whose [editId] is any other JSON value. *)
Inductive body :=
| Unparsable
| Fields (editId : option string) (newValue : option Json.value)
| NonStringId (editId : Json.other) (newValue : option Json.value).

Record request := {
  method : string;
  payload : body }.

(** *** A monad for the handler: state, early [return res.end(...)], and
    exceptions for the [try] block. *)

Inductive outcome (A : Type) :=
| Value (a : A)
| Return (r : response)
| Throw.
Arguments Value {A} a.
Arguments Return {A} r.
Arguments Throw {A}.

Definition handler (A : Type) := world -> outcome A * world.

Definition pure {A} (a : A) : handler A := fun w => (Value a, w).

Definition bind {A B} (m : handler A) (k : A -> handler B) : handler B :=
  fun w =>
    match m w with
    | (Value a, w') => k a w'
    | (Return r, w') => (Return r, w')
    | (Throw, w') => (Throw, w')
    end.

Definition respond {A} (r : response) : handler A := fun w => (Return r, w).

Definition throw {A} : handler A := fun w => (Throw, w).

(** A call into a library that either returns or throws. *)
Definition attempt {A} (o : option A) : handler A :=
  match o with
  | Some a => pure a
  | None => throw
  end.

Notation "x <- m ;; k" := (bind m (fun x => k))
  (at level 100, m at next level, right associativity).
Notation "m ;;; k" := (bind m (fun _ => k))
  (at level 100, right associativity).

(** The responses of the handler, as written in the source. *)
Definition missingFields : response :=
  Failure 400 "Missing editId or newValue".
Definition invalidEditId : response :=
  Failure 400 "Invalid editId format (filePath:line:column)".
Definition invalidPath : response :=
  Failure 400 "Invalid path".
Definition targetNotFound : response :=
  Failure 404 "AST Modification Failed - Target node not found by line/column.".
Definition notModified : response :=
  Failure 409 "AST Modification Failed - Target node found, but failed to modify text child.".
Definition internalError : response :=
  Failure 500 "Internal server error during edit application.".

(** The world once one more [fs] call is on record. *)
Definition logged (call : fs_call) (w : world) : world :=
  {| files := files w; calls := calls w ++ [call] |}.

(** [await fs.readFile(path, 'utf-8')]: throws when there is no such file. *)
Definition readFile (path : string) : handler string :=
  fun w =>
    match files w !! path with
    | Some content => (Value content, logged (ReadFile path) w)
    | None => (Throw, logged (ReadFile path) w)
    end.

(** [await fs.writeFile(path, content, 'utf-8')]: the file holds [content]
    afterwards.  A write that fails half way is outside the model. *)
Definition writeFile (path content : string) : handler unit :=
  fun w =>
    (Value tt,
     {| files := <[path := content]> (files w);
        calls := calls w ++ [WriteFile path content] |}).

(** The [try]/[catch] around a handler body: whatever it throws becomes
    the 500 response. *)
Definition settle (h : handler response) (w : world) : reply * world :=
  match h w with
  | (Value r, w') => (Sent r, w')
  | (Return r, w') => (Sent r, w')
  | (Throw, w') => (Sent internalError, w')
  end.

Section WithLibraries.

(** [VITE_PROJECT_ROOT]: the absolute path of the plugin's directory. *)
Context (VITE_PROJECT_ROOT : string).

(** [@babel/parser]'s [parse] with the plugin's options, and
    [@babel/generator]'s [generate(ast, options, code).code], which is
    given the tree and the text it was parsed from; [None] when they
    throw. *)
Context (parse : string -> option node).
Context (generate : node -> string -> option string).

(** The guard of [transform]: a [.jsx] or [.tsx] file under the project
    root and not under [node_modules]. *)
Definition transformable (id : string) : bool :=
  (Js.endsWith ".jsx" id || Js.endsWith ".tsx" id)
  && Js.startsWith VITE_PROJECT_ROOT id
  && negb (Js.includes "node_modules" id).

(** [transform(code, id)]: [None] is the [null] the hook returns when
    there is nothing to change (or on an error, which it logs); otherwise
    the generated code.  The source map is not modelled. *)
Definition transform (code id : string) : option string :=
  if negb (transformable id) then None
  else
    let relativeFilePath := Path.relative VITE_PROJECT_ROOT id in
    let webRelativeFilePath :=
      Js.join "/" (Js.split Path.sep relativeFilePath) in
    match parse code with
    | None => None
    | Some babelAst =>
        let '(stamped, attributesAdded) := stamp webRelativeFilePath babelAst 0%nat in
        if (0 <? attributesAdded)%nat then generate stamped code
        else None
    end.

(** The path test of the edit handler, on the decoded path and its
    resolution. *)
Definition pathRefused (filePath absoluteFilePath : string) : bool :=
  Js.includes ".." filePath
  || negb (Js.startsWith VITE_PROJECT_ROOT absoluteFilePath)
  || Js.includes "node_modules" absoluteFilePath.

(** The end of the [try] block: generate the code of the mutated tree,
    write it over the file, and answer with it. *)
Definition writeBack (filePath absoluteFilePath originalContent : string)
    (mutated : node) : handler response :=
  newContent <- attempt (generate mutated originalContent) ;;
  writeFile absoluteFilePath newContent ;;;
  pure (Success filePath newContent).

(** The [try] block of the edit handler.  The guard is
    [!editId || newValue === undefined]; [parseEditId] then calls
    [editId.split], which no JSON value but a string has, so that a
    truthy [editId] that is not a string makes it throw.  [newValue]
    goes into the tree as it is, string or not. *)
Definition applyEditBody (b : body) : handler response :=
  match b with
  | Unparsable => throw
  | NonStringId editId newValue =>
      match newValue with
      | Some _ => if Json.truthy editId then throw else respond missingFields
      | None => respond missingFields
      end
  | Fields editId newValue =>
      match editId, newValue with
      | Some editId, Some newValue =>
          if Js.falsy editId then respond missingFields else
          match Codec.parseEditId editId with
          | None => respond invalidEditId
          | Some (filePath, targetLine, targetColumn) =>
              let absoluteFilePath := Path.resolve VITE_PROJECT_ROOT filePath in
              if pathRefused filePath absoluteFilePath then respond invalidPath else
              originalContent <- readFile absoluteFilePath ;;
              babelAst <- attempt (parse originalContent) ;;
              match locate targetLine targetColumn babelAst with
              | None => respond targetNotFound
              | Some targetNodePath =>
                  match modifyParent newValue targetNodePath with
                  | None => respond notModified
                  | Some mutated =>
                      writeBack filePath absoluteFilePath originalContent mutated
                  end
              end
          end
      | _, _ => respond missingFields
      end
  end.

(** The middleware on [/api/apply-edit]: other methods go to [next()];
    whatever the [try] block throws becomes the 500 response. *)
Definition applyEdit (req : request) (w : world) : reply * world :=
  if negb (String.eqb (method req) "POST") then (Next, w)
  else settle (applyEditBody (payload req)) w.

(** What the build pipeline serves for a file: the code [transform]
    returns, or the code it was given when the hook returns [null]. *)
Definition served (code id : string) : string :=
  match transform code id with
  | Some code' => code'
  | None => code
  end.

End WithLibraries.

End Plugin.

(** ** Vocabulary for the statements about trees *)

Module Tree.

Import Ast.

(** The opening tags of a tree in the order the traversal enters them. *)
Fixpoint openings (n : node) : list node :=
  match n with
  | JSXElement o children => openings o ++ flat_map openings children
  | JSXOpeningElement _ _ attributes => n :: flat_map openings attributes
  | JSXAttribute _ (Some v) => openings v
  | JSXAttribute _ None => []
  | JSXText _ _ => []
  | StringLiteral _ => []
  | Other _ sub => flat_map openings sub
  end.

(** An opening tag whose computed position [(line, column + 1)] is the
    target. *)
Definition opens_at (targetLine targetColumn : Z) (n : node) : bool :=
  match n with
  | JSXOpeningElement l _ _ => at_position targetLine targetColumn l
  | _ => false
  end.

(** Which attributes of an opening tag are identifier attributes, in
    attribute order. *)
Definition idFlags (n : node) : list bool :=
  match n with
  | JSXOpeningElement _ _ attributes => map isEditIdAttribute attributes
  | _ => []
  end.

(** An opening tag carries the identifier attribute. *)
Definition carriesId (n : node) : bool :=
  match n with
  | JSXOpeningElement _ _ attributes => alreadyHasId attributes
  | _ => false
  end.

Definition hasLoc (n : node) : bool :=
  match n with
  | JSXOpeningElement (Some _) _ _ => true
  | _ => false
  end.

(** The pass has something to add to an opening tag: the tag has a
    position and carries no identifier. *)
Definition needsId (n : node) : bool := hasLoc n && negb (carriesId n).

(** The attributes of an opening tag once the pass has visited it: those
    it had, and one identifier attribute after them if it needed one. *)
Definition stampedFlags (n : node) : list bool :=
  (idFlags n ++ (if needsId n then [true] else []))%list.

(** No direct child is a text node. *)
Definition noTextChild (children : list node) : Prop :=
  Forall (fun child => isJSXText child = false) children.




End Tree.

(** ** Vocabulary for the statements about the edit handler *)

Module Run.

Import Ast Plugin.

Section WithLibraries.

Context (VITE_PROJECT_ROOT : string).
Context (parse : string -> option node).
Context (generate : node -> string -> option string).

(** The world after a successful edit: the file was read, then written. *)
Definition written (abs newContent : string) (w : world) : world :=
  {| files := <[abs := newContent]> (files w);
     calls := (calls w ++ [ReadFile abs; WriteFile abs newContent])%list |}.

(** How a request that has a mutated tree ends: the generated code is
    written over the file and sent back, or the generator throws. *)
Definition committed (filePath originalContent : string) (mutated : node)
    (w : world) : reply * world :=
  match generate mutated originalContent with
  | Some newContent =>
      (Sent (Success filePath newContent),
       written (Path.resolve VITE_PROJECT_ROOT filePath) newContent w)
  | None =>
      (Sent internalError,
       logged (ReadFile (Path.resolve VITE_PROJECT_ROOT filePath)) w)
  end.

(** A request gets as far as the locate step: it is a POST with both
    fields, the identifier decodes, the path passes the test, the file is
    there and the parser returns a tree. *)
Definition reachesLocate (req : request) (w : world)
    (newValue : Json.value) (filePath : string) (targetLine targetColumn : Z)
    (originalContent : string) (babelAst : node) : Prop :=
  exists editId,
    method req = "POST"
    /\ payload req = Fields (Some editId) (Some newValue)
    /\ Codec.parseEditId editId = Some (filePath, targetLine, targetColumn)
    /\ pathRefused VITE_PROJECT_ROOT filePath
         (Path.resolve VITE_PROJECT_ROOT filePath) = false
    /\ files w !! Path.resolve VITE_PROJECT_ROOT filePath = Some originalContent
    /\ parse originalContent = Some babelAst.

(** The ways an edit can fail, by the step that fails. *)
Inductive cause :=
| UnparsableBody
| MissingFields
| MistypedIdentifier
| InvalidIdentifier
| AccessDenied
| UnreadableFile
| ParseFailure
| TargetNotFound
| NotMutable
| SerializeFailure.



(** Why a POST fails, if it does: the first of the conditions named by the
    failure categories that holds of the request and of the storage. *)
Definition failure (req : request) (w : world) : option cause :=
  match payload req with
  | Unparsable => Some UnparsableBody
  | NonStringId _ None => Some MissingFields
  | NonStringId editId (Some _) =>
      if Json.truthy editId then Some MistypedIdentifier else Some MissingFields
  | Fields None _ => Some MissingFields
  | Fields _ None => Some MissingFields
  | Fields (Some editId) (Some newValue) =>
      if Js.falsy editId then Some MissingFields
      else
        match Codec.parseEditId editId with
        | None => Some InvalidIdentifier
        | Some (filePath, targetLine, targetColumn) =>
            let absoluteFilePath := Path.resolve VITE_PROJECT_ROOT filePath in
            if pathRefused VITE_PROJECT_ROOT filePath absoluteFilePath
            then Some AccessDenied
            else
              match files w !! absoluteFilePath with
              | None => Some UnreadableFile
              | Some originalContent =>
                  match parse originalContent with
                  | None => Some ParseFailure
                  | Some babelAst =>
                      match locate targetLine targetColumn babelAst with
                      | None => Some TargetNotFound
                      | Some target =>
                          match modifyParent newValue target with
                          | None => Some NotMutable
                          | Some mutated =>
                              match generate mutated originalContent with
                              | None => Some SerializeFailure
                              | Some _ => None
                              end
                          end
                      end
                  end
              end
        end
  end.

(** The response the handler is written to send for each cause. *)
Definition response_for (c : cause) : response :=
  match c with
  | UnparsableBody => internalError
  | MissingFields => missingFields
  | MistypedIdentifier => internalError
  | InvalidIdentifier => invalidEditId
  | AccessDenied => invalidPath
  | UnreadableFile => internalError
  | ParseFailure => internalError
  | TargetNotFound => targetNotFound
  | NotMutable => notModified
  | SerializeFailure => internalError
  end.



Definition isWrite (call : fs_call) : bool :=
  match call with
  | WriteFile _ _ => true
  | ReadFile _ => false
  end.

End WithLibraries.

(** [abs] lies under the directory [root]: its segments extend those of
    [root]. *)
Fixpoint extends (rootSegs segs : list string) : bool :=
  match rootSegs, segs with
  | [], _ => true
  | r :: rs, s :: ss => String.eqb r s && extends rs ss
  | _ :: _, [] => false
  end.

Definition descendant (root abs : string) : bool :=
  extends (Path.segments root) (Path.segments abs).

End Run.

(** ** A small project, for the examples *)

Module Sample.

Import Ast Plugin.

Definition root : string := "/srv/poc-preview".

Definition nl : string := String (ascii_of_nat 10) "".
Definition quote : string := String (ascii_of_nat 34) "".

(** [a.tsx]: [<p>] opens on line 3 at column 4; [<nav>] wraps an element
    and nothing else.
<<
<main>
  <h1>Title</h1>
    <p>Hello</p>
  <nav><a>Home</a></nav>
</main>;
>> *)
Definition content : string :=
  "<main>" ++ nl ++ "  <h1>Title</h1>" ++ nl ++ "    <p>Hello</p>" ++ nl
  ++ "  <nav><a>Home</a></nav>" ++ nl ++ "</main>;" ++ nl.

Definition element (l c : Z) (name : string) (attributes children : list node) : node :=
  JSXElement (JSXOpeningElement (Some {| line := l; column := c |}) name attributes)
             children.

Definition text (s : string) : node := JSXText s s.

Definition file (body : node) : node :=
  Other "File" [Other "Program" [Other "ExpressionStatement" [body]]].

Definition tree : node :=
  file (element 1 0 "main" []
          [ text (nl ++ "  ");
            element 2 2 "h1" [] [text "Title"];
            text (nl ++ "    ");
            element 3 4 "p" [] [text "Hello"];
            text (nl ++ "  ");
            element 4 2 "nav" [] [element 4 7 "a" [] [text "Home"]];
            text nl ]).

(** The same file once every element carries its identifier. *)
Definition stampedTree : node :=
  file (element 1 0 "main" [idAttribute "a.tsx:1:1"]
          [ text (nl ++ "  ");
            element 2 2 "h1" [idAttribute "a.tsx:2:3"] [text "Title"];
            text (nl ++ "    ");
            element 3 4 "p" [idAttribute "a.tsx:3:5"] [text "Hello"];
            text (nl ++ "  ");
            element 4 2 "nav" [idAttribute "a.tsx:4:3"]
              [element 4 7 "a" [idAttribute "a.tsx:4:8"] [text "Home"]];
            text nl ]).

(** A printer for such trees, standing in for the generator; a text
    whose value is not a string prints as nothing. *)
Fixpoint print (n : node) : string :=
  match n with
  | JSXElement o children =>
      print o ++ String.concat "" (map print children)
      ++ match o with
         | JSXOpeningElement _ name _ => "</" ++ name ++ ">"
         | _ => ""
         end
  | JSXOpeningElement _ name attributes =>
      "<" ++ name ++ String.concat "" (map (fun a => " " ++ print a) attributes) ++ ">"
  | JSXAttribute (JSXIdentifier name) (Some v) => name ++ "=" ++ print v
  | JSXAttribute (JSXNamespacedName ns name) (Some v) => ns ++ ":" ++ name ++ "=" ++ print v
  | JSXAttribute (JSXIdentifier name) None => name
  | JSXAttribute (JSXNamespacedName ns name) None => ns ++ ":" ++ name
  | JSXText (Json.Text value) _ => value
  | JSXText (Json.NotText _) _ => ""
  | StringLiteral value => quote ++ value ++ quote
  | Other kind sub =>
      String.concat "" (map print sub)
      ++ (if String.eqb kind "ExpressionStatement" then ";" ++ nl else "")
  end.

Definition generate (n : node) (code : string) : option string := Some (print n).

Definition stampedContent : string := print stampedTree.

(** A parser that knows the two files above and throws on anything else. *)
Definition parse (code : string) : option node :=
  if String.eqb code content then Some tree
  else if String.eqb code stampedContent then Some stampedTree
  else None.

Definition path : string := "/srv/poc-preview/a.tsx".

(** The project on disk: [a.tsx], and a file the parser cannot read. *)
Definition disk : world :=
  {| files := {[ path := content; "/srv/poc-preview/broken.tsx" := "<main" ]};
     calls := [] |}.

Definition post (editId newValue : string) : request :=
  {| method := "POST"; payload := Fields (Some editId) (Some (Json.Text newValue)) |}.

(** The request with the body [{"editId": true, "newValue": "Hi"}], and
    the one with [{"editId": "a.tsx:3:5", "newValue": null}]. *)
Definition mistyped : request :=
  {| method := "POST";
     payload := NonStringId (Json.Boolean true) (Some (Json.Text "Hi")) |}.

Definition nullValue : request :=
  {| method := "POST";
     payload := Fields (Some "a.tsx:3:5") (Some (Json.NotText Json.Null)) |}.

(** A directory beside the project whose name starts like the root's. *)
Definition siblingPath : string := "/srv/poc-preview-old/a.tsx".

Definition editedContent (newValue : string) : string :=
  "<main>" ++ nl ++ "  <h1>Title</h1>" ++ nl ++ "    <p>" ++ newValue ++ "</p>" ++ nl
  ++ "  <nav><a>Home</a></nav>" ++ nl ++ "</main>;" ++ nl.

Definition siblingDisk : world :=
  {| files := {[ siblingPath := content ]}; calls := [] |}.

End Sample.

(** ** Tactics *)

(** Unfold the monadic plumbing of the handler, down to its tests. *)
Ltac unfold_handler :=
  cbv beta iota zeta delta
    [Plugin.settle Plugin.applyEditBody Plugin.bind Plugin.attempt Plugin.pure
     Plugin.throw Plugin.respond Plugin.writeBack Plugin.writeFile
     Plugin.readFile].

(** ** Vocabulary for the statements about the stamping pass *)

Module Shape.

Import Ast.

(** A tree with every identifier attribute taken off, at every depth:
    what is left is all the pass is given that is not an identifier. *)
Fixpoint strip (n : node) : node :=
  match n with
  | JSXElement o children => JSXElement (strip o) (map strip children)
  | JSXOpeningElement l name attributes =>
      JSXOpeningElement l name
        ((fix strip_attributes (attrs : list node) : list node :=
            match attrs with
            | [] => []
            | attr :: rest =>
                if isEditIdAttribute attr then strip_attributes rest
                else strip attr :: strip_attributes rest
            end) attributes)
  | JSXAttribute name (Some v) => JSXAttribute name (Some (strip v))
  | JSXAttribute _ None => n
  | JSXText _ _ => n
  | StringLiteral _ => n
  | Other kind sub => Other kind (map strip sub)
  end.

(** The attributes of an opening tag without the identifier attributes. *)
Fixpoint strip_attributes (attrs : list node) : list node :=
  match attrs with
  | [] => []
  | attr :: rest =>
      if isEditIdAttribute attr then strip_attributes rest
      else strip attr :: strip_attributes rest
  end.

(** The path [transform] puts in the identifiers of a file: the file's
    path relative to the project root, with [/] for [path.sep]. *)
Definition webRelativeFilePath (VITE_PROJECT_ROOT id : string) : string :=
  Js.join "/" (Js.split Path.sep (Path.relative VITE_PROJECT_ROOT id)).

End Shape.

(** ** The listener in the preview page ([inline-edit-listener.ts]) *)

Module Listener.

Import Plugin.

(** [parts.pop()] on the array of parts: the popped value, [undefined]
    on an empty array, and the array as it is left. *)
Definition pop (parts : list string) : option string * list string :=
  match Js.pop parts with
  | Some (last, rest) => (Some last, rest)
  | None => (None, parts)
  end.

(** [parseEditId] of the listener: the decoder of the plugin with the
    [typeof] test on the popped parts before they are read as numbers. *)
Definition parseEditId (editId : string) : option (string * Z * Z) :=
  let parts := Js.split ":" editId in
  if (length parts <? 3)%nat then None
  else
    let '(endOffsetStr, parts1) := pop parts in
    let '(startOffsetStr, parts2) := pop parts1 in
    let filePath := Js.join ":" parts2 in
    match startOffsetStr, endOffsetStr with
    | Some startOffsetStr, Some endOffsetStr =>
        let startOffset := Js.parseInt startOffsetStr in
        let endOffset := Js.parseInt endOffsetStr in
        if Js.falsy filePath || Js.isNaN startOffset || Js.isNaN endOffset then None
        else
          match startOffset, endOffset with
          | Some s, Some e => Some (filePath, s, e)
          | _, _ => None
          end
    | _, _ => None
    end.

(** What the handler reads of an element of the page: whether it is
    editable, its text, its [data-edit-id] attribute ([None] when
    [hasAttribute] is false) and its [parentElement]. *)
Inductive htmlElement :=
| HTMLElement (isContentEditable : bool) (textContent : option string)
    (dataEditId : option string) (parentElement : option htmlElement).

Definition isContentEditable (element : htmlElement) : bool :=
  match element with HTMLElement editable _ _ _ => editable end.

Definition textContent (element : htmlElement) : option string :=
  match element with HTMLElement _ text _ _ => text end.

(** [element.getAttribute('data-edit-id')]. *)
Definition getAttribute (element : htmlElement) : option string :=
  match element with HTMLElement _ _ attribute _ => attribute end.

(** [element.hasAttribute('data-edit-id')]. *)
Definition hasAttribute (element : htmlElement) : bool :=
  match getAttribute element with Some _ => true | None => false end.

Definition parentElement (element : htmlElement) : option htmlElement :=
  match element with HTMLElement _ _ _ parent => parent end.

(** [event.target]. *)
Inductive eventTarget :=
| Element (element : htmlElement)
| NotAnElement.

(** The [while] loop of [handleInlineEdit], entered with [element] and
    [searchDepth]: the element it ends on, [None] for [null]. *)
Fixpoint search (element : htmlElement) (searchDepth : nat) : option htmlElement :=
  match element with
  | HTMLElement _ _ (Some _) _ => Some element
  | HTMLElement _ _ None parent =>
      match parent with
      | None => None
      | Some parent =>
          if (10 <? S searchDepth)%nat then None
          else search parent (S searchDepth)
      end
  end.

(** The handler up to the [fetch]: the [editId] and the [newValue] it is
    about to send, [None] when it returns before.  [newValue] is
    [target.textContent || '']: the text, the empty string for [null]. *)
Definition edit (target : eventTarget) : option (string * string) :=
  match target with
  | NotAnElement => None
  | Element target =>
      if negb (isContentEditable target) then None
      else
        match search target 0 with
        | None => None
        | Some element =>
            let editId := getAttribute element in
            let newValue := default "" (textContent target) in
            match editId with
            | None => None
            | Some editId =>
                if Js.falsy editId then None
                else
                  match parseEditId editId with
                  | None => None
                  | Some _ => Some (editId, newValue)
                  end
            end
        end
  end.

(** The request [fetch] sends: the body is
    [JSON.stringify({ editId, newValue })]. *)
Definition applyEditRequest (editId newValue : string) : request :=
  {| method := "POST"; payload := Fields (Some editId) (Some (Json.Text newValue)) |}.

(** [response.status], [response.ok] and the [newContent] field of the
    response body. *)
Definition status (r : response) : Z :=
  match r with
  | Failure status _ => status
  | Success _ _ => 200
  end.

Definition ok (r : response) : bool := (200 <=? status r) && (status r <=? 299).

Definition newContent (r : response) : option string :=
  match r with
  | Failure _ _ => None
  | Success _ newContent => Some newContent
  end.

(** What [window.parent.postMessage] is called with. *)
Record message := {
  type : string;
  editId : string;
  newValue : option string;
  targetOrigin : string }.

Section Fetch.

(** [fetch] to [/api/apply-edit]: what the server answers and what it
    does to its storage; [None] when the promise is rejected. *)
Context (fetch : request -> world -> option response * world).

(** [handleInlineEdit(event)]: the message posted to the parent window,
    if one is, and the storage of the server afterwards. *)
Definition handleInlineEdit (target : eventTarget) (w : world)
  : option message * world :=
  match edit target with
  | None => (None, w)
  | Some (editId, newValue) =>
      let '(response, w') := fetch (applyEditRequest editId newValue) w in
      match response with
      | None => (None, w')
      | Some response =>
          if negb (ok response) then (None, w')
          else
            (Some {| type := "editApplied";
                     editId := editId;
                     newValue := newContent response;
                     targetOrigin := "http://localhost:3000" |}, w')
      end
  end.

End Fetch.

Section Served.

Context (VITE_PROJECT_ROOT : string).
Context (parse : string -> option Ast.node).
Context (generate : Ast.node -> string -> option string).

(** The dev server behind [/api/apply-edit]: the plugin's middleware,
    and the rest of the chain for what it passes on. *)
Definition devServer (next : request -> world -> option response * world)
    (req : request) (w : world) : option response * world :=
  match applyEdit VITE_PROJECT_ROOT parse generate req w with
  | (Sent r, w') => (Some r, w')
  | (Next, w') => next req w'
  end.

End Served.

(** The target and its ancestors, nearest first. *)
Fixpoint ancestry (element : htmlElement) : list htmlElement :=
  match element with
  | HTMLElement _ _ _ None => [element]
  | HTMLElement _ _ _ (Some parent) => element :: ancestry parent
  end.

End Listener.

(** ** The offset helper of the plan ([getLineColFromOffset]) *)

Module Draft.

(** A string is read here one UTF-16 code unit at a time ([content[i]]);
    the line feed is unit 10. *)
Definition newline : N := 10%N.

(** The [for] loop, from index [i] over the units that are left: [line]
    and [lastNewline] when it ends. *)
Fixpoint scan (units : list N) (i line lastNewline : Z) : Z * Z :=
  match units with
  | [] => (line, lastNewline)
  | unit :: rest =>
      if (unit =? newline)%N then scan rest (i + 1) (line + 1) i
      else scan rest (i + 1) line lastNewline
  end.

(** [getLineColFromOffset(content, offset)]: [None] is [null]; the loop
    reads the units at the indices below [offset]. *)
Definition getLineColFromOffset (content : list N) (offset : Z) : option (Z * Z) :=
  if (offset <? 0) || (Z.of_nat (length content) <? offset) then None
  else
    let '(line, lastNewline) := scan (firstn (Z.to_nat offset) content) 0 1 (-1) in
    let column := offset - lastNewline in
    Some (line, column).

(** [content[i]], for an index in range. *)
Definition unitAt (content : list N) (i : Z) : N := nth (Z.to_nat i) content 0%N.

(** One position comes before another: an earlier line, or the same line
    and an earlier column. *)
Definition before (p q : Z * Z) : Prop :=
  fst p < fst q \/ (fst p = fst q /\ snd p < snd q).

End Draft.

(** ** Vocabulary for the statements about files under the project root *)

Module Layout.

(** A path segment as a file system has them: a name that is not empty,
    not [.] and not [..], and holds no [/]. *)
Definition segment (seg : string) : bool :=
  negb (String.eqb seg "") && negb (String.eqb seg ".")
  && negb (String.eqb seg "..") && sep_free "/" seg.

(** The path of the file [relSegs] below the directory [rootSegs]. *)
Definition below (rootSegs relSegs : list string) : string :=
  Path.of_segments (rootSegs ++ relSegs).

End Layout.

(** ** A small page and a small text, for the examples *)

Module SamplePage.

Import Listener.

(** [<p data-edit-id="a.tsx:3:5"><span contenteditable>Hi</span></p>]. *)
Definition paragraph : htmlElement :=
  HTMLElement false (Some "Hi") (Some "a.tsx:3:5") None.

Definition span : htmlElement :=
  HTMLElement true (Some "Hi") None (Some paragraph).

(** The units of [a], line feed, [b]. *)
Definition twoLines : list N := [97; 10; 98]%N.

(** The segments of [Sample.root], and a file whose name has two dots in
    a row. *)
Definition rootSegs : list string := ["srv"; "poc-preview"].

Definition dotted : list string := ["a..b.tsx"].

End SamplePage.
Example parseEditId_scenario :
  Codec.parseEditId "src/App.tsx:12:7" = Some ("src/App.tsx", 12, 7).
Proof. reflexivity. Qed.

(** ** Facts about the string primitives *)

Section JsFacts.

Lemma append_cons (c : ascii) (s t : string) :
  String c s ++ t = String c (s ++ t).
Proof. reflexivity. Qed.

Lemma append_nil_l (t : string) : "" ++ t = t.
Proof. reflexivity. Qed.

Lemma split_nonempty sep s : Js.split sep s <> [].
Proof.
  destruct s as [|c r]; simpl; [discriminate|].
  destruct (Ascii.eqb c sep); [discriminate|].
  destruct (Js.split sep r); discriminate.
Qed.

(** Splitting distributes over a separator in the middle. *)
Lemma split_app_sep sep a b :
  Js.split sep (a ++ String sep b) = (Js.split sep a ++ Js.split sep b)%list.
Proof.
  induction a as [|c r IH].
  - rewrite append_nil_l. simpl. now rewrite Ascii.eqb_refl.
  - rewrite append_cons. simpl. rewrite IH.
    destruct (Ascii.eqb c sep); [reflexivity|].
    pose proof (split_nonempty sep r) as Hne.
    destruct (Js.split sep r) as [|h t]; [congruence|reflexivity].
Qed.

Lemma split_sep_free sep s : sep_free sep s = true -> Js.split sep s = [s].
Proof.
  induction s as [|c r IH]; simpl; [reflexivity|].
  intros H. apply andb_prop in H as [Hc Hr].
  destruct (Ascii.eqb c sep); [discriminate|].
  now rewrite (IH Hr).
Qed.

Lemma concat_cons (sep x : string) (l : list string) :
  l <> [] -> String.concat sep (x :: l) = x ++ sep ++ String.concat sep l.
Proof. destruct l; [congruence|reflexivity]. Qed.

(** Joining what was split gives the string back. *)
Lemma join_split (sep : ascii) s :
  Js.join (String sep "") (Js.split sep s) = s.
Proof.
  unfold Js.join.
  induction s as [|c r IH]; [reflexivity|].
  pose proof (split_nonempty sep r) as Hr.
  cbn [Js.split]. destruct (Ascii.eqb_spec c sep) as [->|Hne].
  - rewrite concat_cons by exact Hr. rewrite IH. reflexivity.
  - destruct (Js.split sep r) as [|h t]; [congruence|].
    destruct t as [|h' t'].
    + cbn in *. now subst.
    + rewrite concat_cons by discriminate.
      rewrite concat_cons in IH by discriminate.
      rewrite append_cons. f_equal. exact IH.
Qed.

Lemma pop_snoc {A} (l : list A) (x : A) :
  Js.pop (l ++ [x])%list = Some (x, l).
Proof. unfold Js.pop. rewrite rev_unit, rev_involutive. reflexivity. Qed.

Lemma pop_None {A} (l : list A) : Js.pop l = None <-> l = [].
Proof.
  unfold Js.pop. split.
  - intros H. destruct (rev l) eqn:E; [|discriminate].
    apply (f_equal (@rev A)) in E. now rewrite rev_involutive in E.
  - now intros ->.
Qed.

Lemma pop_Some {A} (l r : list A) (x : A) :
  Js.pop l = Some (x, r) <-> l = (r ++ [x])%list.
Proof.
  split.
  - unfold Js.pop. destruct (rev l) as [|y t] eqn:E; [discriminate|].
    intros [= -> <-]. apply (f_equal (@rev A)) in E.
    rewrite rev_involutive in E. exact E.
  - intros ->. apply pop_snoc.
Qed.

Lemma string_of_uint_digits d : all_digits (NilEmpty.string_of_uint d) = true.
Proof. induction d; simpl; auto. Qed.

Lemma string_of_uint_nonempty n :
  NilEmpty.string_of_uint (N.to_uint n) <> "".
Proof.
  destruct n as [|p]; [discriminate|].
  pose proof (DecimalN.Unsigned.of_to (Npos p)) as Hp.
  destruct (N.to_uint (Npos p)); simpl; try discriminate.
Qed.

Lemma digits_prefix_all s : all_digits s = true -> Js.digits_prefix s = s.
Proof.
  induction s as [|c r IH]; simpl; [reflexivity|].
  intros H. apply andb_prop in H as [Hc Hr]. rewrite Hc. now rewrite IH.
Qed.

Lemma digit_sep_free c :
  Js.is_digit c = true -> Ascii.eqb c ":" = false.
Proof.
  unfold Js.is_digit, Js.code. intros H.
  destruct (Ascii.eqb_spec c ":") as [->|]; [discriminate H|reflexivity].
Qed.

Lemma all_digits_sep_free s : all_digits s = true -> sep_free ":" s = true.
Proof.
  induction s as [|c r IH]; simpl; [reflexivity|].
  intros H. apply andb_prop in H as [Hc Hr].
  rewrite (digit_sep_free c Hc). simpl. auto.
Qed.

Lemma number_to_string_sep_free z :
  sep_free ":" (Js.number_to_string z) = true.
Proof.
  unfold Js.number_to_string.
  destruct (z <? 0); simpl;
    apply all_digits_sep_free, string_of_uint_digits.
Qed.

(** A string that starts with a digit or a sign has no leading white
    space. *)
Lemma trimStart_plain a r :
  (Js.code a < 128)%N -> Js.is_ws1 a = false ->
  Js.trimStart (String a r) = String a r.
Proof.
  intros Hlt Hws. simpl. rewrite Hws.
  assert (H2 : forall b, Js.is_ws2 a b = false).
  { intros b. unfold Js.is_ws2.
    destruct (N.eqb_spec (Js.code a) 194); [lia|reflexivity]. }
  assert (H3 : forall b c, Js.is_ws3 a b c = false).
  { intros b c. unfold Js.is_ws3.
    destruct (N.eqb_spec (Js.code a) 225); [lia|].
    destruct (N.eqb_spec (Js.code a) 226); [lia|].
    destruct (N.eqb_spec (Js.code a) 227); [lia|].
    destruct (N.eqb_spec (Js.code a) 239); [lia|]. reflexivity. }
  destruct r as [|b [|c r3]]; rewrite ?H2, ?H3; reflexivity.
Qed.

Lemma digit_plain c :
  Js.is_digit c = true -> (Js.code c < 128)%N /\ Js.is_ws1 c = false.
Proof.
  unfold Js.is_digit, Js.is_ws1. intros H.
  apply andb_prop in H as [H1 H2].
  apply N.leb_le in H1. apply N.leb_le in H2. split; [lia|].
  destruct (N.leb_spec 9 (Js.code c)), (N.leb_spec (Js.code c) 13),
    (N.eqb_spec (Js.code c) 32); simpl; try reflexivity; lia.
Qed.

Lemma digit_not_sign c :
  Js.is_digit c = true -> Ascii.eqb c "-" = false /\ Ascii.eqb c "+" = false.
Proof.
  unfold Js.is_digit, Js.code. intros H. split.
  - destruct (Ascii.eqb_spec c "-") as [->|]; [discriminate H|reflexivity].
  - destruct (Ascii.eqb_spec c "+") as [->|]; [discriminate H|reflexivity].
Qed.

Lemma digits_value_print n :
  Js.digits_value (NilEmpty.string_of_uint (N.to_uint n)) = Some (Z.of_N n).
Proof.
  unfold Js.digits_value. rewrite NilEmpty.usu.
  now rewrite DecimalN.Unsigned.of_to.
Qed.

(** Reading an unsigned numeral gives its value. *)
Lemma parseInt_digits (ds : string) (v : Z) :
  ds <> "" -> all_digits ds = true -> Js.digits_value ds = Some v ->
  Js.parseInt ds = Some v.
Proof.
  intros Hne Hall Hv. destruct ds as [|c r]; [congruence|].
  pose proof Hall as Hall'.
  simpl in Hall. apply andb_prop in Hall as [Hc Hr].
  destruct (digit_plain c Hc) as [Hlt Hws].
  destruct (digit_not_sign c Hc) as [Hm Hp].
  unfold Js.parseInt. rewrite (trimStart_plain c r Hlt Hws).
  unfold Js.strip_sign, Js.sign_of. rewrite Hm, Hp. cbn [orb].
  rewrite (digits_prefix_all _ Hall'), Hv. simpl. now destruct v.
Qed.

(** [parseInt] undoes the printing of an integer. *)
Lemma parseInt_number_to_string z :
  Js.parseInt (Js.number_to_string z) = Some z.
Proof.
  unfold Js.number_to_string. destruct (Z.ltb_spec z 0) as [Hneg|Hpos].
  - set (ds := NilEmpty.string_of_uint (N.to_uint (Z.abs_N z))).
    assert (Hne : ds <> "") by apply string_of_uint_nonempty.
    assert (Hall : all_digits ds = true) by apply string_of_uint_digits.
    assert (Hv : Js.digits_value ds = Some (Z.of_N (Z.abs_N z)))
      by apply digits_value_print.
    unfold Js.parseInt.
    rewrite trimStart_plain by (vm_compute; reflexivity).
    change (Js.strip_sign (String "-" ds)) with ds.
    change (Js.sign_of (String "-" ds)) with (-1).
    rewrite (digits_prefix_all _ Hall). clearbody ds.
    destruct ds as [|c r]; [congruence|].
    rewrite Hv. simpl. f_equal. rewrite N2Z.inj_abs_N. lia.
  - apply parseInt_digits.
    + apply string_of_uint_nonempty.
    + apply string_of_uint_digits.
    + rewrite digits_value_print. f_equal. lia.
Qed.

Lemma digit_uint_of_char c d :
  Js.is_digit c = true -> exists d', uint_of_char c (Some d) = Some d'.
Proof.
  destruct c as [[|] [|] [|] [|] [|] [|] [|] [|]];
    intros H; try discriminate H; eexists; reflexivity.
Qed.

Lemma digits_value_total ds :
  all_digits ds = true -> exists v, Js.digits_value ds = Some v.
Proof.
  intros H. unfold Js.digits_value.
  assert (Hd : exists d, NilEmpty.uint_of_string ds = Some d).
  { induction ds as [|c r IH]; simpl; [eauto|].
    simpl in H. apply andb_prop in H as [Hc Hr].
    destruct (IH Hr) as [d ->]. now apply digit_uint_of_char. }
  destruct Hd as [d ->]. eauto.
Qed.

Lemma digits_prefix_digits s : all_digits (Js.digits_prefix s) = true.
Proof.
  induction s as [|c r IH]; simpl; [reflexivity|].
  destruct (Js.is_digit c) eqn:E; simpl; [now rewrite E|reflexivity].
Qed.

(** [parseInt] is [NaN] exactly when no digit follows the white space and
    the sign. *)
Lemma parseInt_NaN_iff s :
  Js.parseInt s = None <->
  Js.digits_prefix (Js.strip_sign (Js.trimStart s)) = "".
Proof.
  unfold Js.parseInt.
  pose proof (digits_prefix_digits (Js.strip_sign (Js.trimStart s))) as Hall.
  destruct (Js.digits_prefix (Js.strip_sign (Js.trimStart s))) as [|c r] eqn:E.
  - tauto.
  - destruct (digits_value_total _ Hall) as [v ->]. simpl.
    split; discriminate.
Qed.

End JsFacts.

(** ** The identifier codec *)

Section CodecFacts.

Lemma formatEditId_split filePath line column :
  Js.split ":" (Codec.formatEditId filePath line column) =
  (Js.split ":" filePath
     ++ [Js.number_to_string line; Js.number_to_string column])%list.
Proof.
  unfold Codec.formatEditId.
  change (":" ++ Js.number_to_string line ++ ":" ++ Js.number_to_string column)
    with (String ":" (Js.number_to_string line ++ String ":" (Js.number_to_string column))).
  rewrite !split_app_sep.
  rewrite (split_sep_free ":" (Js.number_to_string line))
    by apply number_to_string_sep_free.
  rewrite (split_sep_free ":" (Js.number_to_string column))
    by apply number_to_string_sep_free.
  reflexivity.
Qed.

Lemma parseEditId_parts (parts : list string) (lineStr columnStr editId : string) :
  Js.split ":" editId = (parts ++ [lineStr; columnStr])%list ->
  parts <> [] ->
  Codec.parseEditId editId =
  if Js.falsy (Js.join ":" parts)
     || Js.isNaN (Js.parseInt lineStr) || Js.isNaN (Js.parseInt columnStr)
  then None
  else
    match Js.parseInt lineStr, Js.parseInt columnStr with
    | Some l, Some c => Some (Js.join ":" parts, l, c)
    | _, _ => None
    end.
Proof.
  intros Hsplit Hne. unfold Codec.parseEditId. rewrite Hsplit.
  assert (Hlen : (length (parts ++ [lineStr; columnStr]) <? 3)%nat = false).
  { apply Nat.ltb_ge. rewrite length_app. simpl.
    destruct parts; [congruence|simpl; lia]. }
  rewrite Hlen.
  change (parts ++ [lineStr; columnStr])%list
    with (parts ++ [lineStr] ++ [columnStr])%list.
  rewrite app_assoc, pop_snoc, pop_snoc. reflexivity.
Qed.

(** Every split has at least three parts or is too short; in the first
    case the last two parts can be named. *)
Lemma split_last_two (l : list string) :
  (3 <= length l)%nat ->
  exists parts lineStr columnStr,
    l = (parts ++ [lineStr; columnStr])%list /\ parts <> [].
Proof.
  intros Hlen.
  destruct (rev l) as [|c [|ln rest]] eqn:E.
  - apply (f_equal (@rev string)) in E. rewrite rev_involutive in E.
    subst. simpl in Hlen. lia.
  - apply (f_equal (@rev string)) in E. rewrite rev_involutive in E.
    subst. simpl in Hlen. lia.
  - apply (f_equal (@rev string)) in E. rewrite rev_involutive in E.
    exists (rev rest), ln, c. split.
    + subst l. simpl. now rewrite <- app_assoc.
    + intros Hnil. subst l. simpl in Hlen.
      rewrite !length_app, Hnil in Hlen. simpl in Hlen. lia.
Qed.

(** The first part of a split holds no separator. *)
Lemma split_head_sep_free sep s h t :
  Js.split sep s = h :: t -> sep_free sep h = true.
Proof.
  revert h t. induction s as [|c r IH]; intros h t H; simpl in H.
  - now injection H as <- <-.
  - destruct (Ascii.eqb c sep) eqn:E.
    + now injection H as <- <-.
    + destruct (Js.split sep r) as [|h' t'] eqn:Er.
      * now injection H as <- <-; simpl; rewrite E.
      * injection H as <- <-. simpl. rewrite E. simpl. exact (IH _ _ eq_refl).
Qed.

Lemma parseEditId_short editId :
  (length (Js.split ":" editId) < 3)%nat -> Codec.parseEditId editId = None.
Proof.
  intros H. unfold Codec.parseEditId.
  apply Nat.ltb_lt in H. now rewrite H.
Qed.

Lemma falsy_iff s : Js.falsy s = true <-> s = "".
Proof. destruct s; simpl; split; congruence. Qed.

Lemma isNaN_iff x : Js.isNaN x = true <-> x = None.
Proof. destruct x; simpl; split; congruence. Qed.

Lemma parseEditId_Some_nonempty editId r :
  Codec.parseEditId editId = Some r -> Js.falsy editId = false.
Proof. destruct editId; [discriminate|reflexivity]. Qed.

(** Decoding undoes encoding for a path that is not empty. *)
Lemma formatEditId_decodes (filePath : string) (line column : Z) :
  filePath <> "" ->
  Codec.parseEditId (Codec.formatEditId filePath line column)
  = Some (filePath, line, column).
Proof.
  intros Hpath.
  rewrite (parseEditId_parts _ _ _ _ (formatEditId_split filePath line column))
    by apply split_nonempty.
  rewrite (join_split ":"%char), !parseInt_number_to_string.
  destruct filePath; [congruence|reflexivity].
Qed.

End CodecFacts.

(** C2: for every file path, colons included, and every line and column,
    decoding the colon-joined identifier gives back the path, the line
    and the column.  A file path is not the empty string: the path the
    stamping pass encodes is that of a file below the project root. *)
Theorem parseEditId_formatEditId (filePath : string) (line column : Z) :
  filePath <> "" ->
  Codec.parseEditId (Codec.formatEditId filePath line column)
  = Some (filePath, line, column).
Proof.
  intros Hpath.
  rewrite (parseEditId_parts _ _ _ _ (formatEditId_split filePath line column))
    by apply split_nonempty.
  rewrite (join_split ":"%char), !parseInt_number_to_string.
  destruct filePath; [congruence|reflexivity].
Qed.

Lemma parseEditId_formatEditId_colon_path :
  Codec.parseEditId (Codec.formatEditId "C:/site/src/App.tsx" 12 7)
  = Some ("C:/site/src/App.tsx", 12, 7).
Proof. apply parseEditId_formatEditId. discriminate. Defined.

(** The guard [!filePath] of the decoder: the empty string is no path, and
    what would be its identifier is rejected. *)
Example parseEditId_formatEditId_empty_path :
  Codec.formatEditId "" 3 5 = ":3:5" /\ Codec.parseEditId ":3:5" = None.
Proof. split; reflexivity. Qed.

(** X2: the decoder of [poc-backend/server.js] takes the first three parts of
    the split: on a path without a colon it returns what the plugin's
    decoder returns, on a path with a colon it returns a path that is not
    the one encoded. *)
Theorem parseEditId_backend_left_split (filePath : string) (line column : Z) :
  (sep_free ":" filePath = true ->
   Codec.parseEditId_backend (Codec.formatEditId filePath line column)
   = {| Codec.backend_filePath := filePath;
        Codec.backend_line := Some line;
        Codec.backend_column := Some column |})
  /\ (sep_free ":" filePath = false ->
      Codec.backend_filePath
        (Codec.parseEditId_backend (Codec.formatEditId filePath line column))
      <> filePath).
Proof.
  unfold Codec.parseEditId_backend. rewrite formatEditId_split. split.
  - intros Hfree. rewrite (split_sep_free _ _ Hfree). simpl.
    now rewrite !parseInt_number_to_string.
  - intros Hcolon Heq.
    pose proof (split_nonempty ":" filePath) as Hne.
    destruct (Js.split ":" filePath) as [|h t] eqn:Hsplit; [congruence|].
    simpl in Heq. subst h.
    pose proof (split_head_sep_free _ _ _ _ Hsplit). congruence.
Qed.

Example parseEditId_backend_colon_path :
  Codec.parseEditId_backend (Codec.formatEditId "C:/site/src/App.tsx" 12 7)
  = {| Codec.backend_filePath := "C";
       Codec.backend_line := None;
       Codec.backend_column := Some 12 |}.
Proof. reflexivity. Qed.

(** C8, as amended: the decoder returns the invalid result exactly when
    the identifier has fewer than three parts, or the recovered path is
    empty, or [parseInt] yields [NaN] on the line or on the column; and
    [parseInt] yields [NaN] exactly when no decimal digit follows the
    leading white space and the optional sign. *)
Theorem parseEditId_rejects :
  (forall editId : string,
     Codec.parseEditId editId = None <->
     (length (Js.split ":" editId) < 3)%nat \/
     exists parts lineStr columnStr,
       Js.split ":" editId = (parts ++ [lineStr; columnStr])%list /\
       (Js.join ":" parts = ""
        \/ Js.parseInt lineStr = None \/ Js.parseInt columnStr = None))
  /\ (forall s : string,
        Js.parseInt s = None <->
        Js.digits_prefix (Js.strip_sign (Js.trimStart s)) = "").
Proof.
  split; [|exact parseInt_NaN_iff].
  intros editId. split.
  - intros Hnone.
    destruct (Nat.lt_ge_cases (length (Js.split ":" editId)) 3) as [Hlt|Hge];
      [now left|right].
    destruct (split_last_two _ Hge) as (parts & lineStr & columnStr & Hsplit & Hne).
    exists parts, lineStr, columnStr. split; [exact Hsplit|].
    rewrite (parseEditId_parts _ _ _ _ Hsplit Hne) in Hnone.
    destruct (Js.join ":" parts) as [|a r]; [now left|right].
    destruct (Js.parseInt lineStr); [|now left].
    destruct (Js.parseInt columnStr); [|now right].
    discriminate Hnone.
  - intros [Hlt|(parts & lineStr & columnStr & Hsplit & Hbad)].
    + now apply parseEditId_short.
    + destruct parts as [|p0 ps].
      * apply parseEditId_short. rewrite Hsplit. simpl. lia.
      * rewrite (parseEditId_parts _ _ _ _ Hsplit) by discriminate.
        destruct Hbad as [Hpath|[Hline|Hcol]].
        -- now rewrite Hpath.
        -- rewrite Hline. simpl. now rewrite orb_true_r.
        -- rewrite Hcol. simpl. now rewrite !orb_true_r.
Qed.

(** C8, the input on which the claim as stated fails: neither ["3px"] nor
    ["5px"] is numeric, and the identifier is accepted with the digits
    they start with. *)
Lemma parseEditId_accepts_numeric_prefix :
  numeric "3px" = false /\ numeric "5px" = false
  /\ Codec.parseEditId "a.tsx:3px:5px" = Some ("a.tsx", 3, 5).
Proof. repeat split; reflexivity. Qed.

(** ** Trees, paths and the two traversals *)

Section TreeFacts.

Import Ast Tree.
Local Open Scope list_scope.

(** Induction over trees, with the hypothesis for every node of a
    container. *)
Lemma node_induction (P : node -> Prop) :
  (forall o children, P o -> Forall P children -> P (JSXElement o children)) ->
  (forall l name attributes,
      Forall P attributes -> P (JSXOpeningElement l name attributes)) ->
  (forall name v, P v -> P (JSXAttribute name (Some v))) ->
  (forall name, P (JSXAttribute name None)) ->
  (forall value raw, P (JSXText value raw)) ->
  (forall value, P (StringLiteral value)) ->
  (forall kind sub, Forall P sub -> P (Other kind sub)) ->
  forall n, P n.
Proof.
  intros HE HO HAS HAN HT HS HX.
  fix IH 1. intros n.
  assert (Hall : forall l : list node, Forall P l).
  { fix IHl 1. intros [|x r]; [constructor|].
    constructor; [apply IH|apply IHl]. }
  destruct n as [o children|l name attributes|name [v|]|value raw|value|kind sub].
  - apply HE; [apply IH|apply Hall].
  - apply HO, Hall.
  - apply HAS, IH.
  - apply HAN.
  - apply HT.
  - apply HS.
  - apply HX, Hall.
Qed.

Lemma plug_snoc (p : nodePath) (f : frame) (n : node) :
  plug (p ++ [f]) n = fill f (plug p n).
Proof. unfold plug. now rewrite fold_left_app. Qed.

(** *** Stopping at the first hit in a container *)

Lemma visit_list_Some {A} (visit : node -> option A) before l b r a :
  visit_list visit before l = Some (b, r, a) ->
  exists pre x,
    l = pre ++ x :: a /\ b = before ++ pre /\ visit x = Some r
    /\ Forall (fun y => visit y = None) pre.
Proof.
  revert before. induction l as [|x rest IH]; intros before H; simpl in H.
  - discriminate.
  - destruct (visit x) as [r'|] eqn:E.
    + injection H as <- <- <-. exists [], x.
      rewrite app_nil_r. repeat split; auto.
    + destruct (IH _ H) as (pre & y & -> & -> & Hy & Hpre).
      exists (x :: pre), y. rewrite <- app_assoc. repeat split; auto.
Qed.

Lemma visit_list_None {A} (visit : node -> option A) before l :
  visit_list visit before l = None <-> Forall (fun y => visit y = None) l.
Proof.
  revert before. induction l as [|x rest IH]; intros before; simpl.
  - split; auto.
  - destruct (visit x) eqn:E.
    + split; [discriminate|]. intros H. inversion H; congruence.
    + rewrite IH. split; [now constructor|]. intros H. now inversion H.
Qed.

Lemma find_app_first {A} (f : A -> bool) (l1 l2 : list A) :
  find f (l1 ++ l2) =
  match find f l1 with Some x => Some x | None => find f l2 end.
Proof.
  induction l1 as [|x r IH]; simpl; [reflexivity|].
  destruct (f x); [reflexivity|exact IH].
Qed.

Lemma find_none_iff {A} (f : A -> bool) (l : list A) :
  find f l = None <-> Forall (fun x => f x = false) l.
Proof.
  induction l as [|x r IH]; simpl.
  - split; auto.
  - destruct (f x) eqn:E.
    + split; [discriminate|]. intros H. inversion H; congruence.
    + rewrite IH. split; [now constructor|]. intros H. now inversion H.
Qed.

(** The first hit in a container is the first hit of the flattened
    enumeration, when that holds node by node. *)
Lemma visit_list_find {A} (visit : node -> option A) (hit : A -> node)
    (f : node -> bool) (before l : list node) :
  Forall (fun x => option_map hit (visit x) = find f (openings x)) l ->
  option_map (fun t => hit (snd (fst t))) (visit_list visit before l)
  = find f (flat_map openings l).
Proof.
  revert before. induction l as [|x rest IH]; intros before H; simpl.
  - reflexivity.
  - inversion H as [|? ? Hx Hrest]; subst.
    rewrite find_app_first, <- Hx.
    destruct (visit x); simpl; [reflexivity|]. now apply IH.
Qed.

(** *** The locate step *)

Section LocateFacts.

Context (targetLine targetColumn : Z).

Local Abbreviation locate := (Ast.locate targetLine targetColumn).
Local Abbreviation opens_at := (Tree.opens_at targetLine targetColumn).

(** The located path leads to the located node: plugging it back gives
    the tree that was searched. *)
Lemma locate_plug n p m : locate n = Some (p, m) -> plug p m = n.
Proof.
  revert p m. induction n as
    [o children IHo IHc|l name attributes IHa|name v IHv|name|value raw|value
    |kind sub IHs] using node_induction; intros p m H; simpl in H.
  - destruct (locate o) as [[p' m']|] eqn:Eo.
    + injection H as <- <-. rewrite plug_snoc. simpl. f_equal. now apply IHo.
    + destruct (visit_list locate [] children) as [[[b [p' m']] a]|] eqn:Ec;
        [|discriminate].
      injection H as <- <-.
      destruct (visit_list_Some _ _ _ _ _ _ Ec) as (pre & x & -> & -> & Hx & _).
      rewrite plug_snoc, (Forall_elt _ _ _ IHc _ _ Hx). reflexivity.
  - destruct (at_position targetLine targetColumn l).
    + now injection H as <- <-.
    + destruct (visit_list locate [] attributes) as [[[b [p' m']] a]|] eqn:Ea;
        [|discriminate].
      injection H as <- <-.
      destruct (visit_list_Some _ _ _ _ _ _ Ea) as (pre & x & -> & -> & Hx & _).
      rewrite plug_snoc, (Forall_elt _ _ _ IHa _ _ Hx). reflexivity.
  - destruct (locate v) as [[p' m']|] eqn:Ev; [|discriminate].
    injection H as <- <-. rewrite plug_snoc. simpl. do 2 f_equal. now apply IHv.
  - discriminate.
  - discriminate.
  - discriminate.
  - destruct (visit_list locate [] sub) as [[[b [p' m']] a]|] eqn:Es;
      [|discriminate].
    injection H as <- <-.
    destruct (visit_list_Some _ _ _ _ _ _ Es) as (pre & x & -> & -> & Hx & _).
    rewrite plug_snoc, (Forall_elt _ _ _ IHs _ _ Hx). reflexivity.
Qed.

(** The traversal with [path.stop()] returns the first opening tag, in
    traversal order, that sits at the target position. *)
Lemma locate_first n :
  option_map snd (locate n) = find opens_at (openings n).
Proof.
  induction n as
    [o children IHo IHc|l name attributes IHa|name v IHv|name|value raw|value
    |kind sub IHs] using node_induction; simpl.
  - rewrite find_app_first, <- IHo.
    destruct (locate o) as [[p m]|]; simpl; [reflexivity|].
    rewrite <- (visit_list_find locate snd opens_at [] children IHc).
    destruct (visit_list locate [] children) as [[[b [p m]] a]|]; reflexivity.
  - destruct (at_position targetLine targetColumn l); simpl; [reflexivity|].
    rewrite <- (visit_list_find locate snd opens_at [] attributes IHa).
    destruct (visit_list locate [] attributes) as [[[b [p m]] a]|]; reflexivity.
  - rewrite <- IHv. destruct (locate v) as [[p m]|]; reflexivity.
  - reflexivity.
  - reflexivity.
  - reflexivity.
  - rewrite <- (visit_list_find locate snd opens_at [] sub IHs).
    destruct (visit_list locate [] sub) as [[[b [p m]] a]|]; reflexivity.
Qed.

Lemma locate_None_iff n :
  locate n = None <-> Forall (fun m => opens_at m = false) (openings n).
Proof.
  rewrite <- find_none_iff, <- locate_first.
  destruct (locate n); simpl; split; congruence.
Qed.

Lemma locate_opens_at n p m : locate n = Some (p, m) -> opens_at m = true.
Proof.
  intros H. pose proof (locate_first n) as Hf. rewrite H in Hf. simpl in Hf.
  apply eq_sym, find_some in Hf. tauto.
Qed.

End LocateFacts.

(** *** The mutation step *)

Lemma setFirstText_cons newValue c rest :
  isJSXText c = false ->
  setFirstText newValue (c :: rest)
  = option_map (cons c) (setFirstText newValue rest).
Proof. destruct c; simpl; intros H; try reflexivity; discriminate. Qed.

Lemma setFirstText_None newValue children :
  setFirstText newValue children = None <-> noTextChild children.
Proof.
  unfold noTextChild. induction children as [|c rest IH].
  - simpl. split; auto.
  - destruct (isJSXText c) eqn:E.
    + destruct c; try discriminate E. simpl.
      split; [discriminate|]. intros H. inversion H. discriminate.
    + rewrite (setFirstText_cons _ _ _ E).
      destruct (setFirstText newValue rest) eqn:Er; simpl.
      * split; [discriminate|]. intros H. inversion H as [|? ? _ Hrest].
        apply IH in Hrest. discriminate.
      * split; [|reflexivity]. intros _. constructor; [exact E|now apply IH].
Qed.

(** The first text child, and only it, gets the new value. *)
Lemma setFirstText_first newValue pre value raw post :
  noTextChild pre ->
  setFirstText newValue (pre ++ JSXText value raw :: post)
  = Some (pre ++ JSXText newValue raw :: post).
Proof.
  unfold noTextChild. induction pre as [|c rest IH]; intros H.
  - reflexivity.
  - inversion H as [|? ? Hc Hrest]; subst.
    rewrite <- app_comm_cons, (setFirstText_cons _ _ _ Hc), (IH Hrest).
    reflexivity.
Qed.

(** Children with a text node split at the first one. *)
Lemma first_text_split children :
  ~ noTextChild children ->
  exists pre value raw post,
    children = pre ++ JSXText value raw :: post /\ noTextChild pre.
Proof.
  unfold noTextChild. induction children as [|c rest IH]; intros H.
  - exfalso. apply H. constructor.
  - destruct (isJSXText c) eqn:E.
    + destruct c; try discriminate. exists [], value, raw, rest.
      split; [reflexivity|constructor].
    + destruct IH as (pre & value & raw & post & -> & Hpre).
      { intros Hrest. apply H. now constructor. }
      exists (c :: pre), value, raw, post. split; [reflexivity|now constructor].
Qed.

End TreeFacts.

(** ** The sample project behaves as expected *)

Example sample_print : Sample.print Sample.tree = Sample.content.
Proof. reflexivity. Qed.

Example sample_locate_p :
  option_map snd (Ast.locate 3 5 Sample.tree)
  = Some (Ast.JSXOpeningElement (Some {| Ast.line := 3; Ast.column := 4 |}) "p" []).
Proof. reflexivity. Qed.

Example sample_stamp :
  Ast.stamp "a.tsx" Sample.tree 0 = (Sample.stampedTree, 5%nat).
Proof. reflexivity. Qed.

Example sample_transform :
  Plugin.transform Sample.root Sample.parse Sample.generate Sample.content Sample.path
  = Some Sample.stampedContent.
Proof. vm_compute. reflexivity. Qed.

Example sample_edit_p :
  fst (Plugin.applyEdit Sample.root Sample.parse Sample.generate
         (Sample.post "a.tsx:3:5" "Hi") Sample.disk)
  = Plugin.Sent (Plugin.Success "a.tsx" (Sample.editedContent "Hi")).
Proof. vm_compute. reflexivity. Qed.

Example sample_edit_nav :
  Plugin.applyEdit Sample.root Sample.parse Sample.generate
    (Sample.post "a.tsx:4:3" "Hi") Sample.disk
  = (Plugin.Sent Plugin.notModified,
     Plugin.logged (Plugin.ReadFile Sample.path) Sample.disk).
Proof. vm_compute. reflexivity. Qed.

Example sample_edit_stale :
  Plugin.applyEdit Sample.root Sample.parse Sample.generate
    (Sample.post "a.tsx:9:1" "Hi") Sample.disk
  = (Plugin.Sent Plugin.targetNotFound,
     Plugin.logged (Plugin.ReadFile Sample.path) Sample.disk).
Proof. vm_compute. reflexivity. Qed.

Example sample_edit_outside :
  Plugin.applyEdit Sample.root Sample.parse Sample.generate
    (Sample.post "../secret.txt:1:1" "Hi") Sample.disk
  = (Plugin.Sent Plugin.invalidPath, Sample.disk).
Proof. vm_compute. reflexivity. Qed.

(** ** The edit handler *)

Section HandlerFacts.

Import Ast Tree Plugin Run.
Local Open Scope list_scope.

Context (VITE_PROJECT_ROOT : string).
Context (parse : string -> option node).
Context (generate : node -> string -> option string).

Local Abbreviation applyEdit := (Plugin.applyEdit VITE_PROJECT_ROOT parse generate).
Local Abbreviation failure := (Run.failure VITE_PROJECT_ROOT parse generate).
Local Abbreviation reachesLocate := (Run.reachesLocate VITE_PROJECT_ROOT parse).
Local Abbreviation committed := (Run.committed VITE_PROJECT_ROOT generate).
Local Abbreviation resolve := (Path.resolve VITE_PROJECT_ROOT).

(** *** The mutation step *)

Lemma parentElement_plug p m o children up :
  parentElement (p, m) = Some (o, children, up) ->
  plug p m = plug up (JSXElement o children).
Proof.
  destruct p as [|[c|o' before after| | |] p']; simpl; intros [= <- <- <-];
    reflexivity.
Qed.

(** The parent of the located node is an element exactly when the frame
    above it, filled with the node, is one. *)
Lemma parentElement_fill parent up m o children :
  fill parent m = JSXElement o children ->
  parentElement (parent :: up, m) = Some (o, children, up).
Proof. destruct parent; simpl; intros [= <- <-]; reflexivity. Qed.

Lemma parentElement_inv p m o children up :
  parentElement (p, m) = Some (o, children, up) ->
  exists parent, p = parent :: up /\ fill parent m = JSXElement o children.
Proof.
  destruct p as [|[c|o' before after| | |] p']; simpl; intros [= <- <- <-];
    eexists; split; reflexivity.
Qed.

Lemma modifyParent_None newValue target :
  modifyParent newValue target = None <->
  (forall o children up,
     parentElement target = Some (o, children, up) -> noTextChild children).
Proof.
  unfold modifyParent.
  destruct (parentElement target) as [[[o children] up]|].
  - destruct (setFirstText newValue children) as [children'|] eqn:E.
    + split; [discriminate|]. intros H.
      specialize (H o children up eq_refl).
      apply (setFirstText_None newValue) in H. congruence.
    + split; [|reflexivity]. intros _ o' children' up' [= <- <- <-].
      now apply (setFirstText_None newValue).
  - split; [discriminate|reflexivity].
Qed.

Lemma modifyParent_first newValue target o pre value raw post up :
  parentElement target = Some (o, pre ++ JSXText value raw :: post, up) ->
  noTextChild pre ->
  modifyParent newValue target
  = Some (plug up (JSXElement o (pre ++ JSXText newValue raw :: post))).
Proof.
  intros Hparent Hpre. unfold modifyParent.
  now rewrite Hparent, (setFirstText_first _ _ _ _ _ Hpre).
Qed.

(** *** The handler, step by step *)

Lemma settle_writeBack filePath originalContent mutated w :
  settle (writeBack generate filePath (resolve filePath) originalContent mutated)
         (logged (ReadFile (resolve filePath)) w)
  = committed filePath originalContent mutated w.
Proof.
  unfold Run.committed, written, logged. unfold_handler.
  destruct (generate mutated originalContent); simpl; [|reflexivity].
  now rewrite <- app_assoc.
Qed.

Lemma applyEdit_not_post req w :
  method req <> "POST" -> applyEdit req w = (Next, w).
Proof.
  intros H. unfold Plugin.applyEdit.
  destruct (String.eqb_spec (method req) "POST"); [contradiction|reflexivity].
Qed.

Lemma applyEdit_post req w :
  method req = "POST" ->
  applyEdit req w
  = settle (applyEditBody VITE_PROJECT_ROOT parse generate (payload req)) w.
Proof. intros H. unfold Plugin.applyEdit. now rewrite H. Qed.

Lemma applyEdit_sent_post req w r :
  fst (applyEdit req w) = Sent r -> method req = "POST".
Proof.
  intros H. destruct (String.eqb_spec (method req) "POST") as [E|E]; [exact E|].
  rewrite (applyEdit_not_post _ _ E) in H. discriminate H.
Qed.

(** From the locate step on, the handler is a function of the parsed
    tree. *)
Lemma applyEdit_reachesLocate
    req w newValue filePath targetLine targetColumn originalContent babelAst :
  reachesLocate req w newValue filePath targetLine targetColumn
    originalContent babelAst ->
  applyEdit req w
  = match locate targetLine targetColumn babelAst with
    | None => (Sent targetNotFound, logged (ReadFile (resolve filePath)) w)
    | Some target =>
        match modifyParent newValue target with
        | None => (Sent notModified, logged (ReadFile (resolve filePath)) w)
        | Some mutated => committed filePath originalContent mutated w
        end
    end.
Proof.
  intros (editId & Hm & Hp & Hid & Hpath & Hfile & Hparse).
  rewrite (applyEdit_post _ _ Hm), Hp.
  destruct (locate targetLine targetColumn babelAst) as [target|] eqn:Hloc;
    [destruct (modifyParent newValue target) as [mutated|] eqn:Hmod|].
  - rewrite <- settle_writeBack. unfold_handler.
    rewrite (parseEditId_Some_nonempty _ _ Hid), Hid, Hpath, Hfile, Hparse, Hloc, Hmod.
    reflexivity.
  - unfold_handler.
    rewrite (parseEditId_Some_nonempty _ _ Hid), Hid, Hpath, Hfile, Hparse, Hloc, Hmod.
    reflexivity.
  - unfold_handler.
    rewrite (parseEditId_Some_nonempty _ _ Hid), Hid, Hpath, Hfile, Hparse, Hloc.
    reflexivity.
Qed.

(** What a POST does, by the cause of its failure. *)
Lemma applyEdit_failure req w c :
  method req = "POST" -> failure req w = Some c ->
  fst (applyEdit req w) = Sent (response_for c)
  /\ (snd (applyEdit req w) = w
      \/ exists abs, snd (applyEdit req w) = logged (ReadFile abs) w).
Proof.
  intros Hm. rewrite (applyEdit_post _ _ Hm). unfold Run.failure.
  unfold_handler.
  destruct (payload req) as [|[editId|] [newValue|]|mistyped [newValue|]];
    try (intros [= <-]; split; [reflexivity|left; reflexivity]).
  2:{ destruct (Json.truthy mistyped); intros [= <-];
        (split; [reflexivity|left; reflexivity]). }
  destruct (Js.falsy editId);
    [intros [= <-]; split; [reflexivity|left; reflexivity]|].
  destruct (Codec.parseEditId editId) as [[[filePath targetLine] targetColumn]|];
    [|intros [= <-]; split; [reflexivity|left; reflexivity]].
  destruct (pathRefused VITE_PROJECT_ROOT filePath (resolve filePath));
    [intros [= <-]; split; [reflexivity|left; reflexivity]|].
  destruct (files w !! resolve filePath) as [originalContent|];
    [|intros [= <-]; split; [reflexivity|right; eexists; reflexivity]].
  destruct (parse originalContent) as [babelAst|];
    [|intros [= <-]; split; [reflexivity|right; eexists; reflexivity]].
  destruct (locate targetLine targetColumn babelAst) as [target|];
    [|intros [= <-]; split; [reflexivity|right; eexists; reflexivity]].
  destruct (modifyParent newValue target) as [mutated|];
    [|intros [= <-]; split; [reflexivity|right; eexists; reflexivity]].
  destruct (generate mutated originalContent) as [newContent|];
    [discriminate|intros [= <-]; split; [reflexivity|right; eexists; reflexivity]].
Qed.

Lemma applyEdit_no_failure req w :
  method req = "POST" -> failure req w = None ->
  exists filePath newContent,
    applyEdit req w
    = (Sent (Success filePath newContent), written (resolve filePath) newContent w).
Proof.
  intros Hm. rewrite (applyEdit_post _ _ Hm). unfold Run.failure.
  unfold_handler.
  destruct (payload req) as [|[editId|] [newValue|]|mistyped [newValue|]];
    try discriminate.
  2:{ destruct (Json.truthy mistyped); discriminate. }
  destruct (Js.falsy editId); [discriminate|].
  destruct (Codec.parseEditId editId) as [[[filePath targetLine] targetColumn]|];
    [|discriminate].
  destruct (pathRefused VITE_PROJECT_ROOT filePath (resolve filePath));
    [discriminate|].
  destruct (files w !! resolve filePath) as [originalContent|]; [|discriminate].
  destruct (parse originalContent) as [babelAst|]; [|discriminate].
  destruct (locate targetLine targetColumn babelAst) as [target|]; [|discriminate].
  destruct (modifyParent newValue target) as [mutated|]; [|discriminate].
  destruct (generate mutated originalContent) as [newContent|]; [|discriminate].
  intros _. exists filePath, newContent. unfold written, logged. simpl.
  now rewrite <- app_assoc.
Qed.

(** A request fails for want of a target exactly when it reaches the
    locate step and that step finds nothing. *)
Lemma failure_TargetNotFound req w :
  method req = "POST" ->
  failure req w = Some TargetNotFound <->
  exists newValue filePath targetLine targetColumn originalContent babelAst,
    reachesLocate req w newValue filePath targetLine targetColumn
      originalContent babelAst
    /\ locate targetLine targetColumn babelAst = None.
Proof.
  intros Hm. unfold Run.failure, Run.reachesLocate. split.
  - destruct (payload req) as [|[editId|] [newValue|]|mistyped [newValue|]] eqn:Hp;
      try discriminate.
    2:{ destruct (Json.truthy mistyped); discriminate. }
    destruct (Js.falsy editId); [discriminate|].
    destruct (Codec.parseEditId editId)
      as [[[filePath targetLine] targetColumn]|] eqn:Hid; [|discriminate].
    cbv beta iota zeta.
    destruct (pathRefused VITE_PROJECT_ROOT filePath (resolve filePath)) eqn:Hpath;
      [discriminate|].
    destruct (files w !! resolve filePath) as [originalContent|] eqn:Hfile;
      [|discriminate].
    destruct (parse originalContent) as [babelAst|] eqn:Hparse; [|discriminate].
    destruct (locate targetLine targetColumn babelAst) as [target|] eqn:Hloc.
    + destruct (modifyParent newValue target) as [mutated|]; [|discriminate].
      destruct (generate mutated originalContent); discriminate.
    + intros _.
      exists newValue, filePath, targetLine, targetColumn, originalContent, babelAst.
      split; [|exact Hloc]. exists editId. auto 10.
  - intros (newValue & filePath & targetLine & targetColumn & originalContent
            & babelAst & (editId & _ & Hp & Hid & Hpath & Hfile & Hparse) & Hloc).
    rewrite Hp, (parseEditId_Some_nonempty _ _ Hid), Hid. cbv beta iota zeta.
    now rewrite Hpath, Hfile, Hparse, Hloc.
Qed.

Lemma response_for_targetNotFound c :
  response_for c = targetNotFound -> c = TargetNotFound.
Proof. destruct c; intros H; try discriminate H; reflexivity. Qed.



Lemma fill_inj f a b : fill f a = fill f b -> a = b.
Proof.
  destruct f; simpl; intros H; injection H as H; try assumption.
  - now apply app_inv_head in H; injection H.
  - now apply app_inv_head in H; injection H.
  - now apply app_inv_head in H; injection H.
Qed.

Lemma plug_inj p a b : plug p a = plug p b -> a = b.
Proof.
  revert a b. induction p as [|f p IH]; intros a b H; [exact H|].
  unfold plug in H. simpl in H. apply IH in H. now apply fill_inj in H.
Qed.

(** A refused path is answered before the file system is touched. *)
Lemma applyEdit_refused req w editId newValue filePath targetLine targetColumn :
  method req = "POST" ->
  payload req = Fields (Some editId) (Some newValue) ->
  Codec.parseEditId editId = Some (filePath, targetLine, targetColumn) ->
  pathRefused VITE_PROJECT_ROOT filePath (resolve filePath) = true ->
  applyEdit req w = (Sent invalidPath, w).
Proof.
  intros Hm Hp Hid Hpath. rewrite (applyEdit_post _ _ Hm), Hp.
  unfold_handler.
  now rewrite (parseEditId_Some_nonempty _ _ Hid), Hid, Hpath.
Qed.

End HandlerFacts.

(** ** The path test *)

Section PathFacts.

Import Plugin.

Lemma prefix_append p s : String.prefix p (p ++ s) = true.
Proof.
  induction p as [|c p IH]; [now destruct s|].
  rewrite append_cons. simpl.
  destruct (ascii_dec c c); [exact IH|congruence].
Qed.

Lemma includes_unfold p s :
  Js.includes p s
  = String.prefix p s
    || match s with
       | EmptyString => false
       | String _ r => Js.includes p r
       end.
Proof. destruct s; reflexivity. Qed.

Lemma includes_prefix p s : String.prefix p s = true -> Js.includes p s = true.
Proof. intros H. now rewrite includes_unfold, H. Qed.

(** A string includes whatever sits in its middle. *)
Lemma includes_middle p a b : Js.includes p (a ++ p ++ b) = true.
Proof.
  induction a as [|c a IH].
  - rewrite append_nil_l. apply includes_prefix, prefix_append.
  - rewrite append_cons, includes_unfold, IH. apply orb_true_r.
Qed.

Lemma append_assoc (a b c : string) : (a ++ b) ++ c = a ++ b ++ c.
Proof. induction a as [|x a IH]; [reflexivity|]. now rewrite !append_cons, IH. Qed.

Lemma append_nil_r (a : string) : a ++ "" = a.
Proof. induction a as [|x a IH]; [reflexivity|]. now rewrite append_cons, IH. Qed.

(** The first part of a split starts the string. *)
Lemma split_head sep s h t :
  Js.split sep s = h :: t -> exists rest, s = h ++ rest.
Proof.
  revert h t. induction s as [|c r IH]; intros h t H; simpl in H.
  - injection H as <- <-. now exists "".
  - destruct (Ascii.eqb c sep).
    + injection H as <- <-. now exists (String c r).
    + destruct (Js.split sep r) as [|h' t'] eqn:E.
      * injection H as <- <-. exfalso. now apply (split_nonempty sep r).
      * injection H as <- <-. destruct (IH _ _ eq_refl) as [rest ->].
        now exists rest.
Qed.

(** Every part of a split sits in the string. *)
Lemma split_part sep seg s :
  In seg (Js.split sep s) -> exists a b, s = a ++ seg ++ b.
Proof.
  induction s as [|c r IH]; simpl.
  - intros [<-|[]]. now exists "", "".
  - destruct (Ascii.eqb c sep).
    + intros [<-|Hin].
      * now exists "", (String c r).
      * destruct (IH Hin) as (a & b & ->). now exists (String c a), b.
    + destruct (Js.split sep r) as [|h t] eqn:E.
      * exfalso. now apply (split_nonempty sep r).
      * intros [<-|Hin].
        -- destruct (split_head _ _ _ _ E) as [rest ->].
           exists "", rest. reflexivity.
        -- destruct IH as (a & b & ->); [now right|].
           now exists (String c a), b.
Qed.

(** Every segment of a joined path sits in it. *)
Lemma join_part sep seg segs :
  In seg segs -> exists a b, Js.join sep segs = a ++ seg ++ b.
Proof.
  unfold Js.join. induction segs as [|x rest IH]; [intros []|].
  intros [->|Hin].
  - destruct rest as [|y rest'].
    + exists "", "". simpl. now rewrite append_nil_r.
    + exists "", (sep ++ String.concat sep (y :: rest')).
      now rewrite concat_cons by discriminate.
  - destruct rest as [|y rest']; [destruct Hin|].
    destruct (IH Hin) as (a & b & Hab).
    exists (x ++ sep ++ a), b.
    rewrite concat_cons by discriminate. rewrite Hab.
    now rewrite !append_assoc.
Qed.

Context (VITE_PROJECT_ROOT : string).

(** A relative path with a parent-directory segment is refused. *)
Lemma parent_segment_refused filePath abs :
  In ".." (Js.split "/" filePath) ->
  pathRefused VITE_PROJECT_ROOT filePath abs = true.
Proof.
  intros Hin. destruct (split_part _ _ _ Hin) as (a & b & ->).
  unfold pathRefused. now rewrite includes_middle.
Qed.

(** A resolved path that does not start with the root is refused. *)
Lemma outside_prefix_refused filePath abs :
  Js.startsWith VITE_PROJECT_ROOT abs = false ->
  pathRefused VITE_PROJECT_ROOT filePath abs = true.
Proof.
  intros H. unfold pathRefused. rewrite H. simpl.
  now rewrite orb_true_r.
Qed.

(** A resolved path with a [node_modules] segment is refused. *)
Lemma node_modules_refused filePath :
  In "node_modules"
     (Path.segments (if Js.startsWith "/" filePath then filePath
                     else VITE_PROJECT_ROOT ++ "/" ++ filePath)) ->
  pathRefused VITE_PROJECT_ROOT filePath (Path.resolve VITE_PROJECT_ROOT filePath)
  = true.
Proof.
  intros Hin. unfold pathRefused, Path.resolve, Path.of_segments.
  destruct (join_part "/" _ _ Hin) as (a & b & ->).
  rewrite <- append_cons, includes_middle. apply orb_true_r.
Qed.

End PathFacts.

(** ** What the edit handler guarantees *)

Section EditClaims.

Import Ast Tree Plugin Run.
Local Open Scope list_scope.

Context (VITE_PROJECT_ROOT : string).
Context (parse : string -> option node).
Context (generate : node -> string -> option string).

Local Abbreviation applyEdit := (Plugin.applyEdit VITE_PROJECT_ROOT parse generate).
Local Abbreviation failure := (Run.failure VITE_PROJECT_ROOT parse generate).
Local Abbreviation reachesLocate := (Run.reachesLocate VITE_PROJECT_ROOT parse).
Local Abbreviation committed := (Run.committed VITE_PROJECT_ROOT generate).
Local Abbreviation resolve := (Path.resolve VITE_PROJECT_ROOT).

(** C4: the handler answers [TargetNotFound] exactly when the request gets
    as far as a freshly parsed tree and no opening tag of that tree has
    the computed position [(line, column + 1)] of the identifier; the
    files are then as they were; and the locate step returns the first
    opening tag at that position in depth-first order. *)
Theorem applyEdit_targetNotFound req w :
  (fst (applyEdit req w) = Sent targetNotFound <->
   exists newValue filePath targetLine targetColumn originalContent babelAst,
     reachesLocate req w newValue filePath targetLine targetColumn
       originalContent babelAst
     /\ Forall (fun m => opens_at targetLine targetColumn m = false)
               (openings babelAst))
  /\ (fst (applyEdit req w) = Sent targetNotFound ->
      files (snd (applyEdit req w)) = files w)
  /\ (forall targetLine targetColumn babelAst,
        option_map snd (locate targetLine targetColumn babelAst)
        = find (opens_at targetLine targetColumn) (openings babelAst)).
Proof.
  assert (Hcause : fst (applyEdit req w) = Sent targetNotFound ->
                   method req = "POST" /\ failure req w = Some TargetNotFound).
  { intros H. pose proof (applyEdit_sent_post _ _ _ _ _ _ H) as Hm.
    split; [exact Hm|].
    destruct (failure req w) as [c|] eqn:Hf.
    - destruct (applyEdit_failure _ _ _ _ _ _ Hm Hf) as [Hr _].
      rewrite Hr in H. injection H as H.
      now rewrite (response_for_targetNotFound _ H).
    - destruct (applyEdit_no_failure _ _ _ _ _ Hm Hf)
        as (filePath & newContent & Hr).
      rewrite Hr in H. discriminate H. }
  split; [split|split].
  - intros H. destruct (Hcause H) as [Hm Hf].
    apply (failure_TargetNotFound _ _ _ _ _ Hm) in Hf.
    destruct Hf as (newValue & filePath & l & c & content & ast & Hreach & Hloc).
    exists newValue, filePath, l, c, content, ast. split; [exact Hreach|].
    now apply locate_None_iff.
  - intros (newValue & filePath & l & c & content & ast & Hreach & Hnone).
    rewrite (applyEdit_reachesLocate _ _ generate _ _ _ _ _ _ _ _ Hreach).
    apply locate_None_iff in Hnone. now rewrite Hnone.
  - intros H. destruct (Hcause H) as [Hm Hf].
    destruct (applyEdit_failure _ _ _ _ _ _ Hm Hf)
      as [_ [Hw|[abs Hw]]]; now rewrite Hw.
  - intros l c ast. apply locate_first.
Qed.

(** C5: the locate step ends on the opening tag [m] at the target
    position, at the place [parent :: up] of the tree; the element
    matched is the node [m] sits in, [JSXElement o children], which is
    the tree's node at [up].  When no direct child of it is a text node
    the handler answers with the conflict response and the file is read
    and not written; when one is, the first in child order, and only it,
    gets the new value in the tree that is generated and written. *)
Theorem applyEdit_first_text_child
    req w newValue filePath targetLine targetColumn originalContent babelAst
    parent up m o children :
  reachesLocate req w newValue filePath targetLine targetColumn
    originalContent babelAst ->
  locate targetLine targetColumn babelAst = Some (parent :: up, m) ->
  fill parent m = JSXElement o children ->
  opens_at targetLine targetColumn m = true
  /\ babelAst = plug up (JSXElement o children)
  /\ (noTextChild children ->
      applyEdit req w = (Sent notModified, logged (ReadFile (resolve filePath)) w))
  /\ (forall pre value raw post,
        children = pre ++ JSXText value raw :: post ->
        noTextChild pre ->
        applyEdit req w
        = committed filePath originalContent
            (plug up (JSXElement o (pre ++ JSXText newValue raw :: post))) w).
Proof.
  intros Hreach Hloc Hfill.
  pose proof (parentElement_fill parent up m o children Hfill) as Hparent.
  rewrite (applyEdit_reachesLocate _ _ generate _ _ _ _ _ _ _ _ Hreach), Hloc.
  split; [exact (locate_opens_at _ _ _ _ _ Hloc)|].
  split; [|split].
  - rewrite <- (locate_plug _ _ _ _ _ Hloc). simpl. now rewrite Hfill.
  - intros Hno.
    assert (Hnone : modifyParent newValue (parent :: up, m) = None).
    { apply modifyParent_None. intros o' children' up' Hparent'.
      rewrite Hparent in Hparent'. now injection Hparent' as <- <- <-. }
    now rewrite Hnone.
  - intros pre value raw post -> Hpre.
    now rewrite (modifyParent_first newValue _ _ _ _ _ _ _ Hparent Hpre).
Qed.

(** C9: an empty [newValue] is a value like any other: the request is not
    answered as one with a missing field, the first text child of the
    matched element is still there in the tree that is written, with the
    empty string as its value, and the handler answers with success. *)
Theorem applyEdit_empty_newValue
    req w filePath targetLine targetColumn originalContent babelAst target
    o up pre value raw post newContent :
  reachesLocate req w "" filePath targetLine targetColumn originalContent babelAst ->
  locate targetLine targetColumn babelAst = Some target ->
  parentElement target = Some (o, pre ++ JSXText value raw :: post, up) ->
  noTextChild pre ->
  generate (plug up (JSXElement o (pre ++ JSXText "" raw :: post))) originalContent
  = Some newContent ->
  applyEdit req w
  = (Sent (Success filePath newContent), written (resolve filePath) newContent w)
  /\ babelAst = plug up (JSXElement o (pre ++ JSXText value raw :: post))
  /\ (value <> "" ->
      plug up (JSXElement o (pre ++ JSXText "" raw :: post)) <> babelAst).
Proof.
  intros Hreach Hloc Hparent Hpre Hgen.
  assert (Hast : babelAst = plug up (JSXElement o (pre ++ JSXText value raw :: post))).
  { destruct target as [p m].
    rewrite <- (locate_plug _ _ _ _ _ Hloc). now apply parentElement_plug. }
  split; [|split].
  - rewrite (applyEdit_reachesLocate _ _ generate _ _ _ _ _ _ _ _ Hreach), Hloc.
    rewrite (modifyParent_first "" _ _ _ _ _ _ _ Hparent Hpre).
    unfold Run.committed. now rewrite Hgen.
  - exact Hast.
  - intros Hvalue Heq. rewrite Hast in Heq. apply plug_inj in Heq.
    injection Heq as Heq. apply app_inv_head in Heq.
    injection Heq as Heq. congruence.
Qed.



(** X1: on success nothing but the addressed file changes, and the tree
    that is generated differs from the parsed one in the value of one
    text node: the first text child of the element matched by position,
    that is of the node in which the locate step found the first opening
    tag at the target position. *)
Theorem applyEdit_frame req w filePath newContent :
  fst (applyEdit req w) = Sent (Success filePath newContent) ->
  (forall other, other <> resolve filePath ->
                 files (snd (applyEdit req w)) !! other = files w !! other)
  /\ files (snd (applyEdit req w)) !! resolve filePath = Some newContent
  /\ exists newValue targetLine targetColumn originalContent
            parent m o up pre value raw post,
       reachesLocate req w newValue filePath targetLine targetColumn originalContent
         (plug up (JSXElement o (pre ++ JSXText value raw :: post)))
       /\ locate targetLine targetColumn
            (plug up (JSXElement o (pre ++ JSXText value raw :: post)))
          = Some (parent :: up, m)
       /\ find (opens_at targetLine targetColumn)
            (openings (plug up (JSXElement o (pre ++ JSXText value raw :: post))))
          = Some m
       /\ fill parent m = JSXElement o (pre ++ JSXText value raw :: post)
       /\ noTextChild pre
       /\ generate (plug up (JSXElement o (pre ++ JSXText newValue raw :: post)))
            originalContent
          = Some newContent.
Proof.
  intros H. pose proof (applyEdit_sent_post _ _ _ _ _ _ H) as Hm.
  revert H. rewrite (applyEdit_post _ parse generate _ _ Hm).
  unfold Run.reachesLocate. unfold_handler.
  destruct (payload req) as [|[editId|] [newValue|]|mistyped [newValue|]] eqn:Hp;
    try discriminate.
  2:{ destruct (Json.truthy mistyped); discriminate. }
  destruct (Js.falsy editId); [discriminate|].
  destruct (Codec.parseEditId editId)
    as [[[filePath' targetLine] targetColumn]|] eqn:Hid; [|discriminate].
  destruct (pathRefused VITE_PROJECT_ROOT filePath' (resolve filePath')) eqn:Hpath;
    [discriminate|].
  destruct (files w !! resolve filePath') as [originalContent|] eqn:Hfile;
    [|discriminate].
  destruct (parse originalContent) as [babelAst|] eqn:Hparse; [|discriminate].
  destruct (locate targetLine targetColumn babelAst) as [[p m]|] eqn:Hloc;
    [|discriminate].
  destruct (modifyParent newValue (p, m)) as [mutated|] eqn:Hmod; [|discriminate].
  destruct (generate mutated originalContent) as [newContent'|] eqn:Hgen;
    [|discriminate].
  simpl. intros [= -> ->]. split; [|split].
  - intros other Hother. now apply lookup_insert_ne.
  - apply lookup_insert_eq.
  - unfold modifyParent in Hmod.
    destruct (parentElement (p, m)) as [[[o children] up]|] eqn:Hparent;
      [|discriminate].
    destruct (setFirstText newValue children) as [children'|] eqn:Hset;
      [|discriminate].
    injection Hmod as <-.
    assert (Htext : ~ noTextChild children).
    { intros Hno. apply (setFirstText_None newValue) in Hno. congruence. }
    destruct (first_text_split _ Htext) as (pre & value & raw & post & -> & Hpre).
    rewrite (setFirstText_first _ _ _ _ _ Hpre) in Hset. injection Hset as <-.
    destruct (parentElement_inv _ _ _ _ _ Hparent) as (parent & -> & Hfill).
    exists newValue, targetLine, targetColumn, originalContent,
      parent, m, o, up, pre, value, raw, post.
    assert (Hast : plug up (JSXElement o (pre ++ JSXText value raw :: post))
                   = babelAst).
    { rewrite <- (parentElement_plug _ _ _ _ _ Hparent).
      exact (locate_plug _ _ _ _ _ Hloc). }
    rewrite Hast.
    split; [exists editId; auto 10|].
    split; [exact Hloc|].
    split; [|split; [exact Hfill|split; [exact Hpre|exact Hgen]]].
    pose proof (locate_first targetLine targetColumn babelAst) as Hfirst.
    rewrite Hloc in Hfirst. now rewrite <- Hfirst.
Qed.

(** X3: a request whose path has a parent-directory segment, or resolves
    to a path that does not start with the project root, or resolves to a
    path with a [node_modules] segment, is answered with the invalid-path
    response, and the file system is not touched. *)
Theorem applyEdit_refuses_path req w editId newValue filePath targetLine targetColumn :
  method req = "POST" ->
  payload req = Fields (Some editId) (Some newValue) ->
  Codec.parseEditId editId = Some (filePath, targetLine, targetColumn) ->
  In ".." (Js.split "/" filePath)
  \/ Js.startsWith VITE_PROJECT_ROOT (resolve filePath) = false
  \/ In "node_modules"
        (Path.segments (if Js.startsWith "/" filePath then filePath
                        else (VITE_PROJECT_ROOT ++ "/" ++ filePath)%string)) ->
  applyEdit req w = (Sent invalidPath, w).
Proof.
  intros Hm Hp Hid Hbad.
  apply (applyEdit_refused _ _ _ _ _ _ _ _ _ _ Hm Hp Hid).
  destruct Hbad as [Hparent|[Hprefix|Hmodules]].
  - now apply parent_segment_refused.
  - now apply outside_prefix_refused.
  - now apply node_modules_refused.
Qed.

End EditClaims.

(** ** The statements above, on the sample project *)

Lemma sample_reachesLocate (editId newValue : string) (l c : Z) :
  Codec.parseEditId editId = Some ("a.tsx", l, c) ->
  Run.reachesLocate Sample.root Sample.parse
    (Sample.post editId newValue) Sample.disk newValue "a.tsx" l c
    Sample.content Sample.tree.
Proof.
  intros Hid. exists editId.
  repeat split; try reflexivity. exact Hid.
Qed.

(** C5 on the sample: the edit of [<p>], whose only child is the text
    [Hello], writes the file with [Hi] in its place; the edit of [<nav>],
    which wraps an element and nothing else, is answered with the
    conflict response, and the file is read and not written. *)
Lemma applyEdit_first_text_child_witness :
  Plugin.applyEdit Sample.root Sample.parse Sample.generate
    (Sample.post "a.tsx:3:5" "Hi") Sample.disk
  = (Plugin.Sent (Plugin.Success "a.tsx" (Sample.editedContent "Hi")),
     Run.written (Path.resolve Sample.root "a.tsx") (Sample.editedContent "Hi")
       Sample.disk)
  /\ Plugin.applyEdit Sample.root Sample.parse Sample.generate
       (Sample.post "a.tsx:4:3" "Hi") Sample.disk
     = (Plugin.Sent Plugin.notModified,
        Plugin.logged (Plugin.ReadFile (Path.resolve Sample.root "a.tsx"))
          Sample.disk).
Proof.
  split.
  - edestruct (applyEdit_first_text_child Sample.root Sample.parse Sample.generate
                 (Sample.post "a.tsx:3:5" "Hi") Sample.disk "Hi" "a.tsx" 3 5
                 Sample.content Sample.tree)
      as (_ & _ & _ & Hfirst).
    + apply sample_reachesLocate. reflexivity.
    + reflexivity.
    + reflexivity.
    + rewrite (Hfirst [] (Json.Text "Hello") "Hello" [] eq_refl (List.Forall_nil _)).
      vm_compute. reflexivity.
  - edestruct (applyEdit_first_text_child Sample.root Sample.parse Sample.generate
                 (Sample.post "a.tsx:4:3" "Hi") Sample.disk "Hi" "a.tsx" 4 3
                 Sample.content Sample.tree)
      as (_ & _ & Hnone & _).
    + apply sample_reachesLocate. reflexivity.
    + reflexivity.
    + reflexivity.
    + apply Hnone. repeat constructor.
Defined.

Lemma applyEdit_empty_newValue_witness :
  exists target o up,
    Ast.locate 3 5 Sample.tree = Some target
    /\ Ast.parentElement target
       = Some (o, ([] ++ Ast.JSXText "Hello" "Hello" :: [])%list, up)
    /\ Plugin.applyEdit Sample.root Sample.parse Sample.generate
         (Sample.post "a.tsx:3:5" "") Sample.disk
       = (Plugin.Sent (Plugin.Success "a.tsx" (Sample.editedContent "")),
          Run.written (Path.resolve Sample.root "a.tsx") (Sample.editedContent "")
            Sample.disk)
    /\ Sample.tree
       = Ast.plug up (Ast.JSXElement o ([] ++ Ast.JSXText "Hello" "Hello" :: [])%list)
    /\ ("Hello" <> "" ->
        Ast.plug up (Ast.JSXElement o ([] ++ Ast.JSXText "" "Hello" :: [])%list)
        <> Sample.tree).
Proof.
  eexists. eexists. eexists. split; [reflexivity|]. split; [reflexivity|].
  lazymatch goal with
  | |- context [Ast.plug ?up (Ast.JSXElement ?o _)] =>
      destruct (applyEdit_empty_newValue Sample.root Sample.parse Sample.generate
                  (Sample.post "a.tsx:3:5" "") Sample.disk "a.tsx" 3 5
                  Sample.content Sample.tree
                  (Ast.InOpeningElement [Ast.JSXText "Hello" "Hello"] :: up, o)
                  o up [] (Json.Text "Hello") "Hello" []
                  (Sample.editedContent ""))
        as (Hrun & Htree & Hdiffers)
  end.
  - apply sample_reachesLocate. reflexivity.
  - reflexivity.
  - reflexivity.
  - constructor.
  - reflexivity.
  - split; [exact Hrun|]. split; [exact Htree|].
    intros Hvalue. apply Hdiffers. intros Hsame. apply Hvalue.
    now injection Hsame.
Defined.


(** What the sample shows of C10: editing [<main>], which wraps elements
    only, overwrites the line break after its opening tag. *)
Example sample_edit_main :
  fst (Plugin.applyEdit Sample.root Sample.parse Sample.generate
         (Sample.post "a.tsx:1:1" "Hi") Sample.disk)
  = Plugin.Sent (Plugin.Success "a.tsx"
      ("<main>Hi<h1>Title</h1>" ++ Sample.nl ++ "    <p>Hello</p>" ++ Sample.nl
       ++ "  <nav><a>Home</a></nav>" ++ Sample.nl ++ "</main>;" ++ Sample.nl)).
Proof. vm_compute. reflexivity. Qed.


(** A [newValue] that is not a string passes the guard like any other:
    the request with [null] gets as far as the locate step. *)
Example sample_null_value :
  Run.reachesLocate Sample.root Sample.parse Sample.nullValue Sample.disk
    (Json.NotText Json.Null) "a.tsx" 3 5 Sample.content Sample.tree.
Proof. exists "a.tsx:3:5". repeat split; reflexivity. Qed.

(** C3, the failing input: a file in a directory beside the project root
    whose name starts with the root's name is not a descendant of the
    root; its path passes the test, and the file is read and written. *)
Lemma applyEdit_sibling_directory :
  Run.descendant Sample.root Sample.siblingPath = false
  /\ Plugin.applyEdit Sample.root Sample.parse Sample.generate
       (Sample.post "/srv/poc-preview-old/a.tsx:3:5" "Hi") Sample.siblingDisk
     = (Plugin.Sent (Plugin.Success Sample.siblingPath (Sample.editedContent "Hi")),
        Run.written Sample.siblingPath (Sample.editedContent "Hi") Sample.siblingDisk).
Proof. split; vm_compute; reflexivity. Qed.

Lemma applyEdit_frame_witness :
  (forall other, other <> Path.resolve Sample.root "a.tsx" ->
     Plugin.files
       (snd (Plugin.applyEdit Sample.root Sample.parse Sample.generate
               (Sample.post "a.tsx:3:5" "Hi") Sample.disk)) !! other
     = Plugin.files Sample.disk !! other)
  /\ Plugin.files
       (snd (Plugin.applyEdit Sample.root Sample.parse Sample.generate
               (Sample.post "a.tsx:3:5" "Hi") Sample.disk))
       !! Path.resolve Sample.root "a.tsx"
     = Some (Sample.editedContent "Hi")
  /\ exists newValue targetLine targetColumn originalContent
            parent m o up pre value raw post,
       Run.reachesLocate Sample.root Sample.parse
         (Sample.post "a.tsx:3:5" "Hi") Sample.disk
         newValue "a.tsx" targetLine targetColumn originalContent
         (Ast.plug up (Ast.JSXElement o (pre ++ Ast.JSXText value raw :: post)%list))
       /\ Ast.locate targetLine targetColumn
            (Ast.plug up
               (Ast.JSXElement o (pre ++ Ast.JSXText value raw :: post)%list))
          = Some (parent :: up, m)
       /\ find (Tree.opens_at targetLine targetColumn)
            (Tree.openings
               (Ast.plug up
                  (Ast.JSXElement o (pre ++ Ast.JSXText value raw :: post)%list)))
          = Some m
       /\ Ast.fill parent m
          = Ast.JSXElement o (pre ++ Ast.JSXText value raw :: post)%list
       /\ Tree.noTextChild pre
       /\ Sample.generate
            (Ast.plug up (Ast.JSXElement o (pre ++ Ast.JSXText newValue raw :: post)%list))
            originalContent
          = Some (Sample.editedContent "Hi").
Proof.
  apply (applyEdit_frame Sample.root Sample.parse Sample.generate
           (Sample.post "a.tsx:3:5" "Hi") Sample.disk "a.tsx"
           (Sample.editedContent "Hi")).
  vm_compute. reflexivity.
Defined.

Lemma applyEdit_refuses_path_witness :
  Plugin.applyEdit Sample.root Sample.parse Sample.generate
    (Sample.post "../secret.txt:1:1" "Hi") Sample.disk
  = (Plugin.Sent Plugin.invalidPath, Sample.disk).
Proof.
  apply (applyEdit_refuses_path Sample.root Sample.parse Sample.generate
           (Sample.post "../secret.txt:1:1" "Hi") Sample.disk
           "../secret.txt:1:1" "Hi" "../secret.txt" 1 1).
  - reflexivity.
  - reflexivity.
  - reflexivity.
  - left. simpl. now left.
Defined.

(** ** The stamping pass *)

Section StampFacts.

Import Ast Tree Plugin.
Local Open Scope list_scope.

Context (webRelativeFilePath : string).

Local Abbreviation stamp := (Ast.stamp webRelativeFilePath).

Lemma Forall_flat_map_openings (P : node -> Prop) (Q : node -> Prop) l :
  Forall (fun x => Forall Q (openings x) -> P x) l ->
  Forall Q (flat_map openings l) -> Forall P l.
Proof.
  induction l as [|x rest IH]; intros HP HQ; [constructor|].
  simpl in HQ. apply Forall_app in HQ as [Hx Hrest].
  inversion HP as [|? ? Hpx Hprest]; subst.
  constructor; [now apply Hpx|now apply IH].
Qed.

Lemma visit_each_unchanged (visit : node -> nat -> node * nat) l :
  Forall (fun x => forall k, visit x k = (x, k)) l ->
  forall k, visit_each visit l k = (l, k).
Proof.
  induction l as [|x rest IH]; intros H k; [reflexivity|].
  inversion H as [|? ? Hx Hrest]; subst. simpl.
  now rewrite Hx, (IH Hrest).
Qed.

(** A tree whose opening tags all carry the identifier goes through the
    pass unchanged, and so does the counter. *)
Lemma stamp_unchanged n :
  Forall (fun m => carriesId m = true) (openings n) ->
  forall k, stamp n k = (n, k).
Proof.
  induction n as
    [o children IHo IHc|l name attributes IHa|name v IHv|name|value raw|value
    |kind sub IHs] using node_induction; intros Hall k; simpl in *.
  - apply Forall_app in Hall as [Ho Hc].
    rewrite (IHo Ho).
    rewrite (visit_each_unchanged _ _ (Forall_flat_map_openings _ _ _ IHc Hc)).
    reflexivity.
  - inversion Hall as [|? ? Hid Hattrs]; subst. simpl in Hid.
    pose proof (visit_each_unchanged _ _
                  (Forall_flat_map_openings _ _ _ IHa Hattrs)) as Hsame.
    unfold newAttribute. rewrite Hid. destruct l; now rewrite Hsame.
  - now rewrite (IHv Hall).
  - reflexivity.
  - reflexivity.
  - reflexivity.
  - rewrite (visit_each_unchanged _ _ (Forall_flat_map_openings _ _ _ IHs Hall)).
    reflexivity.
Qed.

(** The pass keeps the kind and the name of every node. *)
Lemma stamp_isEditIdAttribute n k :
  isEditIdAttribute (fst (stamp n k)) = isEditIdAttribute n.
Proof.
  destruct n as [o children|l name attributes|name [v|]|value raw|value|kind sub];
    simpl; try reflexivity.
  - destruct (stamp o k) as [o' k1].
    now destruct (visit_each stamp children k1).
  - destruct (newAttribute webRelativeFilePath l attributes);
      now destruct (visit_each stamp attributes _).
  - now destruct (stamp v k).
  - now destruct (visit_each stamp sub k).
Qed.

Lemma visit_each_idFlags l k :
  map isEditIdAttribute (fst (visit_each stamp l k)) = map isEditIdAttribute l.
Proof.
  revert k. induction l as [|x rest IH]; intros k; simpl; [reflexivity|].
  pose proof (stamp_isEditIdAttribute x k) as Hx.
  destruct (stamp x k) as [x' k1]. simpl in Hx.
  specialize (IH k1). destruct (visit_each stamp rest k1) as [rest' k2].
  simpl in *. now rewrite Hx, IH.
Qed.

Lemma visit_each_openings {B} (f g : node -> B) l :
  Forall (fun x => forall k, map f (openings (fst (stamp x k))) = map g (openings x)) l ->
  forall k,
    map f (flat_map openings (fst (visit_each stamp l k)))
    = map g (flat_map openings l).
Proof.
  induction l as [|x rest IH]; intros H k; [reflexivity|].
  inversion H as [|? ? Hx Hrest]; subst. simpl.
  specialize (Hx k). destruct (stamp x k) as [x' k1]. simpl in Hx.
  specialize (IH Hrest k1). destruct (visit_each stamp rest k1) as [rest' k2].
  simpl in *. now rewrite !map_app, Hx, IH.
Qed.

(** After the pass every opening tag has the attributes [stampedFlags]
    gives: the tags correspond one to one, in traversal order. *)
Lemma stamp_idFlags n k :
  map idFlags (openings (fst (stamp n k))) = map stampedFlags (openings n).
Proof.
  revert k. induction n as
    [o children IHo IHc|l name attributes IHa|name v IHv|name|value raw|value
    |kind sub IHs] using node_induction; intros k; simpl.
  - specialize (IHo k). destruct (stamp o k) as [o' k1]. simpl in IHo.
    pose proof (visit_each_openings _ _ _ IHc k1) as Hc.
    destruct (visit_each stamp children k1) as [children' k2]. simpl in *.
    now rewrite !map_app, IHo, Hc.
  - unfold stampedFlags at 1, needsId, newAttribute. simpl.
    destruct l as [start|]; simpl.
    + destruct (alreadyHasId attributes) eqn:Hid; simpl.
      * pose proof (visit_each_openings _ _ _ IHa k) as Ha.
        pose proof (visit_each_idFlags attributes k) as Hn.
        destruct (visit_each stamp attributes k) as [attributes' k1].
        simpl in *. now rewrite Hn, Ha, app_nil_r.
      * pose proof (visit_each_openings _ _ _ IHa (S k)) as Ha.
        pose proof (visit_each_idFlags attributes (S k)) as Hn.
        destruct (visit_each stamp attributes (S k)) as [attributes' k1].
        simpl in *. rewrite map_app, Hn. simpl.
        rewrite flat_map_app, map_app, Ha. simpl. now rewrite app_nil_r.
    + pose proof (visit_each_openings _ _ _ IHa k) as Ha.
      pose proof (visit_each_idFlags attributes k) as Hn.
      destruct (visit_each stamp attributes k) as [attributes' k1].
      simpl in *. now rewrite Hn, Ha, app_nil_r.
  - specialize (IHv k). now destruct (stamp v k).
  - reflexivity.
  - reflexivity.
  - reflexivity.
  - pose proof (visit_each_openings _ _ _ IHs k) as Hs.
    now destruct (visit_each stamp sub k).
Qed.

Lemma visit_each_count (count : node -> nat) l :
  Forall (fun x => forall k, snd (stamp x k) = (k + count x)%nat) l ->
  forall k,
    snd (visit_each stamp l k) = (k + list_sum (map count l))%nat.
Proof.
  induction l as [|x rest IH]; intros H k; simpl; [lia|].
  inversion H as [|? ? Hx Hrest]; subst.
  specialize (Hx k). destruct (stamp x k) as [x' k1]. simpl in Hx.
  specialize (IH Hrest k1). destruct (visit_each stamp rest k1) as [rest' k2].
  simpl in *. lia.
Qed.

Lemma list_sum_flat_map (l : list node) :
  list_sum (map (fun x => length (List.filter needsId (openings x))) l)
  = length (List.filter needsId (flat_map openings l)).
Proof.
  induction l as [|x rest IH]; simpl; [reflexivity|].
  now rewrite List.filter_app, List.length_app, IH.
Qed.

(** The counter grows by the number of opening tags that needed an
    identifier. *)
Lemma stamp_count n k :
  snd (stamp n k) = (k + length (List.filter needsId (openings n)))%nat.
Proof.
  revert k. induction n as
    [o children IHo IHc|l name attributes IHa|name v IHv|name|value raw|value
    |kind sub IHs] using node_induction; intros k; simpl.
  - specialize (IHo k). destruct (stamp o k) as [o' k1]. simpl in IHo.
    pose proof (visit_each_count _ _ IHc k1) as Hc.
    destruct (visit_each stamp children k1) as [children' k2]. simpl in *.
    rewrite List.filter_app, List.length_app, <- list_sum_flat_map. lia.
  - unfold needsId at 1, newAttribute. simpl.
    destruct l as [start|]; simpl.
    + destruct (alreadyHasId attributes) eqn:Hid; simpl.
      * pose proof (visit_each_count _ _ IHa k) as Ha.
        destruct (visit_each stamp attributes k) as [attributes' k1].
        simpl in *. rewrite <- list_sum_flat_map. lia.
      * pose proof (visit_each_count _ _ IHa (S k)) as Ha.
        destruct (visit_each stamp attributes (S k)) as [attributes' k1].
        simpl in *. rewrite <- list_sum_flat_map. lia.
    + pose proof (visit_each_count _ _ IHa k) as Ha.
      destruct (visit_each stamp attributes k) as [attributes' k1].
      simpl in *. rewrite <- list_sum_flat_map. lia.
  - specialize (IHv k). now destruct (stamp v k).
  - lia.
  - lia.
  - lia.
  - pose proof (visit_each_count _ _ IHs k) as Hs.
    destruct (visit_each stamp sub k) as [sub' k1]. simpl in *.
    rewrite <- list_sum_flat_map. lia.
Qed.

Lemma stampedFlags_carried m : carriesId m = true -> stampedFlags m = idFlags m.
Proof.
  intros H. unfold stampedFlags, needsId. rewrite H, andb_false_r.
  apply app_nil_r.
Qed.

End StampFacts.

Section TransformClaims.

Import Ast Tree Plugin.

Context (VITE_PROJECT_ROOT : string).
Context (parse : string -> option node).
Context (generate : node -> string -> option string).

Local Abbreviation transform := (Plugin.transform VITE_PROJECT_ROOT parse generate).
Local Abbreviation served := (Plugin.served VITE_PROJECT_ROOT parse generate).

(** C6: a file whose opening tags all carry the identifier attribute is
    reported unchanged and served as it is; and on any tree the pass
    keeps the attributes of every opening tag, in order, and adds one
    identifier attribute to the tags that have a position and no
    identifier yet, and to no other: a tag that carries the attribute goes
    through with the attributes it had; the counter is the number of
    attributes added. *)
Theorem transform_idempotent :
  (forall code id,
     (forall babelAst, parse code = Some babelAst ->
                       Forall (fun m => carriesId m = true) (openings babelAst)) ->
     transform code id = None /\ served code id = code)
  /\ (forall webRelativeFilePath babelAst attributesAdded,
        map idFlags
            (openings (fst (stamp webRelativeFilePath babelAst attributesAdded)))
        = map stampedFlags (openings babelAst)
        /\ snd (stamp webRelativeFilePath babelAst attributesAdded)
           = (attributesAdded
              + length (List.filter needsId (openings babelAst)))%nat)
  /\ (forall m, carriesId m = true -> stampedFlags m = idFlags m).
Proof.
  split; [|split].
  - intros code id Hall.
    assert (Hnone : transform code id = None).
    { unfold Plugin.transform.
      destruct (negb (transformable VITE_PROJECT_ROOT id)); [reflexivity|].
      destruct (parse code) as [babelAst|] eqn:Hparse; [|reflexivity].
      now rewrite (stamp_unchanged _ _ (Hall _ eq_refl)). }
    split; [exact Hnone|]. unfold Plugin.served. now rewrite Hnone.
  - intros file babelAst k. split; [apply stamp_idFlags|apply stamp_count].
  - exact stampedFlags_carried.
Qed.

End TransformClaims.

(** What the sample shows of C6: the stamped file is reported unchanged. *)
Example sample_transform_stamped :
  Plugin.transform Sample.root Sample.parse Sample.generate
    Sample.stampedContent Sample.path = None
  /\ Forall (fun m => Tree.carriesId m = true) (Tree.openings Sample.stampedTree).
Proof. split; [vm_compute; reflexivity|repeat constructor]. Qed.

(** ** The two passes agree on addresses *)

Section Addressing.

Import Ast Tree.
Local Open Scope list_scope.

(** X4: the identifier the stamping pass puts on an opening tag decodes to a
    position at which the edit handler finds an opening tag of the same
    tree: the first one at that position, which is the stamped tag itself
    when no other tag starts there. *)
Theorem stamped_identifier_locates
    (webRelativeFilePath : string) (babelAst : node)
    (l : option position) (name : string) (attributes : list node)
    (idAttr : node) :
  webRelativeFilePath <> "" ->
  In (JSXOpeningElement l name attributes) (openings babelAst) ->
  newAttribute webRelativeFilePath l attributes = Some idAttr ->
  exists editId targetLine targetColumn target,
    idAttr = idAttribute editId
    /\ Codec.parseEditId editId
       = Some (webRelativeFilePath, targetLine, targetColumn)
    /\ locate targetLine targetColumn babelAst = Some target
    /\ opens_at targetLine targetColumn (snd target) = true
    /\ ((forall m, In m (openings babelAst) ->
                   opens_at targetLine targetColumn m = true ->
                   m = JSXOpeningElement l name attributes) ->
        snd target = JSXOpeningElement l name attributes).
Proof.
  intros Hfile Hin Hnew. unfold newAttribute in Hnew.
  destruct l as [start|]; [|discriminate].
  destruct (alreadyHasId attributes); [discriminate|].
  injection Hnew as <-.
  set (targetLine := line start). set (targetColumn := column start + 1).
  assert (Hopens : opens_at targetLine targetColumn
                     (JSXOpeningElement (Some start) name attributes) = true).
  { unfold opens_at, at_position, targetLine, targetColumn.
    now rewrite !Z.eqb_refl. }
  destruct (locate targetLine targetColumn babelAst) as [target|] eqn:Hloc.
  - exists (Codec.formatEditId webRelativeFilePath targetLine targetColumn),
      targetLine, targetColumn, target.
    destruct target as [p m].
    pose proof (locate_opens_at _ _ _ _ _ Hloc) as Hm.
    pose proof (locate_first targetLine targetColumn babelAst) as Hfirst.
    rewrite Hloc in Hfirst. simpl in Hfirst.
    apply eq_sym, find_some in Hfirst. destruct Hfirst as [Hmin _].
    repeat split; auto.
    now apply formatEditId_decodes.
  - exfalso. apply locate_None_iff in Hloc.
    rewrite List.Forall_forall in Hloc. specialize (Hloc _ Hin). congruence.
Qed.

End Addressing.

Lemma stamped_identifier_locates_witness :
  exists editId targetLine targetColumn target,
    Ast.idAttribute "a.tsx:3:5" = Ast.idAttribute editId
    /\ Codec.parseEditId editId = Some ("a.tsx", targetLine, targetColumn)
    /\ Ast.locate targetLine targetColumn Sample.tree = Some target
    /\ Tree.opens_at targetLine targetColumn (snd target) = true
    /\ ((forall m, In m (Tree.openings Sample.tree) ->
                   Tree.opens_at targetLine targetColumn m = true ->
                   m = Ast.JSXOpeningElement
                         (Some {| Ast.line := 3; Ast.column := 4 |}) "p" []) ->
        snd target
        = Ast.JSXOpeningElement (Some {| Ast.line := 3; Ast.column := 4 |}) "p" []).
Proof.
  apply (stamped_identifier_locates "a.tsx" Sample.tree
           (Some {| Ast.line := 3; Ast.column := 4 |}) "p" []).
  - discriminate.
  - simpl. tauto.
  - reflexivity.
Defined.

(** ** More on the identifier codec *)

Section CodecMore.

Local Open Scope list_scope.

Lemma number_to_string_inj z z' :
  Js.number_to_string z = Js.number_to_string z' -> z = z'.
Proof.
  intros H. apply (f_equal Js.parseInt) in H.
  rewrite !parseInt_number_to_string in H. congruence.
Qed.

Lemma split_inj sep s s' : Js.split sep s = Js.split sep s' -> s = s'.
Proof.
  intros H. rewrite <- (join_split sep s), <- (join_split sep s'). now rewrite H.
Qed.

(** Every part of a split holds no separator. *)
Lemma split_parts_sep_free sep s :
  Forall (fun part => sep_free sep part = true) (Js.split sep s).
Proof.
  induction s as [|c r IH]; simpl.
  - repeat constructor.
  - destruct (Ascii.eqb c sep) eqn:E.
    + constructor; [reflexivity|exact IH].
    + pose proof (split_nonempty sep r) as Hne.
      destruct (Js.split sep r) as [|h t]; [congruence|].
      inversion IH as [|? ? Hh Ht]; subst.
      constructor; [simpl; now rewrite E, Hh|exact Ht].
Qed.

(** Joining a list that ends in two more parts. *)
Lemma join_snoc2 (sep : string) (parts : list string) (a b : string) :
  parts <> [] ->
  Js.join sep (parts ++ [a; b])
  = (Js.join sep parts ++ sep ++ a ++ sep ++ b)%string.
Proof.
  unfold Js.join. induction parts as [|x rest IH]; [congruence|]. intros _.
  destruct rest as [|y rest'].
  - reflexivity.
  - change ((x :: y :: rest') ++ [a; b]) with (x :: ((y :: rest') ++ [a; b])).
    rewrite concat_cons by discriminate.
    rewrite IH by discriminate.
    rewrite (concat_cons sep x (y :: rest')) by discriminate.
    now rewrite !append_assoc.
Qed.

End CodecMore.

(** X5: the encoding is injective: two identifiers are equal only when
    they were built from the same path, the same line and the same
    column; tags at different positions, or in different files, never
    share an identifier. *)
Theorem formatEditId_injective (filePath filePath' : string) (line line' column column' : Z) :
  Codec.formatEditId filePath line column = Codec.formatEditId filePath' line' column' ->
  filePath = filePath' /\ line = line' /\ column = column'.
Proof.
  intros H. apply (f_equal (Js.split ":")) in H.
  rewrite !formatEditId_split in H.
  change [Js.number_to_string line; Js.number_to_string column]
    with ([Js.number_to_string line] ++ [Js.number_to_string column])%list in H.
  change [Js.number_to_string line'; Js.number_to_string column']
    with ([Js.number_to_string line'] ++ [Js.number_to_string column'])%list in H.
  rewrite !app_assoc in H.
  apply app_inj_tail in H as [H Hcolumn].
  apply app_inj_tail in H as [Hpath Hline].
  repeat split.
  - now apply (split_inj ":"%char).
  - now apply number_to_string_inj.
  - now apply number_to_string_inj.
Qed.

Lemma formatEditId_injective_witness :
  "src/App.tsx" = "src/App.tsx" /\ 12 = 12 /\ 7 = 7.
Proof.
  apply (formatEditId_injective "src/App.tsx" "src/App.tsx" 12 12 7 7).
  reflexivity.
Defined.

(** X6: the decoder accepts exactly the strings of the form
    [path:line:column] in which the path is not empty, the last two parts
    hold no colon, and [parseInt] reads a number at the start of each;
    the path it returns is everything before the last two colons, and the
    numbers are what [parseInt] reads. *)
Theorem parseEditId_accepts (editId filePath : string) (line column : Z) :
  Codec.parseEditId editId = Some (filePath, line, column) <->
  filePath <> "" /\
  exists lineStr columnStr,
    editId = filePath ++ ":" ++ lineStr ++ ":" ++ columnStr
    /\ sep_free ":" lineStr = true /\ sep_free ":" columnStr = true
    /\ Js.parseInt lineStr = Some line /\ Js.parseInt columnStr = Some column.
Proof.
  split.
  - intros H.
    destruct (Nat.lt_ge_cases (length (Js.split ":" editId)) 3) as [Hlt|Hge].
    { rewrite (parseEditId_short _ Hlt) in H. discriminate H. }
    destruct (split_last_two _ Hge) as (parts & lineStr & columnStr & Hsplit & Hne).
    rewrite (parseEditId_parts _ _ _ _ Hsplit Hne) in H.
    destruct (Js.join ":" parts) as [|a r] eqn:Hjoin; [discriminate H|].
    destruct (Js.parseInt lineStr) as [l|] eqn:Hl; [|discriminate H].
    destruct (Js.parseInt columnStr) as [c|] eqn:Hc; [|discriminate H].
    simpl in H. injection H as <- <- <-.
    split; [discriminate|]. exists lineStr, columnStr.
    pose proof (split_parts_sep_free ":"%char editId) as Hfree.
    rewrite Hsplit in Hfree. apply Forall_app in Hfree as [_ Hfree].
    inversion Hfree as [|? ? Hlfree Hfree']; subst.
    inversion Hfree' as [|? ? Hcfree _]; subst.
    repeat split; auto.
    rewrite <- (join_split ":"%char editId), Hsplit.
    rewrite (join_snoc2 ":" parts lineStr columnStr Hne). now rewrite Hjoin.
  - intros (Hpath & lineStr & columnStr & -> & Hlfree & Hcfree & Hl & Hc).
    assert (Hsplit : Js.split ":" (filePath ++ ":" ++ lineStr ++ ":" ++ columnStr)
                     = (Js.split ":" filePath ++ [lineStr; columnStr])%list).
    { change (":" ++ lineStr ++ ":" ++ columnStr)
        with (String ":" (lineStr ++ String ":" columnStr)).
      rewrite !split_app_sep.
      now rewrite (split_sep_free _ _ Hlfree), (split_sep_free _ _ Hcfree). }
    rewrite (parseEditId_parts _ _ _ _ Hsplit) by apply split_nonempty.
    rewrite (join_split ":"%char), Hl, Hc.
    destruct filePath; [congruence|reflexivity].
Qed.

(** ** More on the stamping pass *)

Section StampMore.

Import Ast Tree Shape.
Local Open Scope list_scope.

Context (webRelativeFilePath : string).

Local Abbreviation stamp := (Ast.stamp webRelativeFilePath).

Lemma strip_opening l name attributes :
  strip (JSXOpeningElement l name attributes)
  = JSXOpeningElement l name (strip_attributes attributes).
Proof. reflexivity. Qed.

Lemma strip_attributes_app a b :
  strip_attributes (a ++ b) = strip_attributes a ++ strip_attributes b.
Proof.
  induction a as [|x rest IH]; simpl; [reflexivity|].
  destruct (isEditIdAttribute x); simpl; now rewrite IH.
Qed.

Lemma visit_each_strip l :
  Forall (fun x => forall k, strip (fst (stamp x k)) = strip x) l ->
  forall k, map strip (fst (visit_each stamp l k)) = map strip l.
Proof.
  induction l as [|x rest IH]; intros H k; [reflexivity|].
  inversion H as [|? ? Hx Hrest]; subst. simpl.
  specialize (Hx k). destruct (stamp x k) as [x' k1]. simpl in Hx.
  specialize (IH Hrest k1). destruct (visit_each stamp rest k1) as [rest' k2].
  simpl in *. now rewrite Hx, IH.
Qed.

Lemma visit_each_strip_attributes l :
  Forall (fun x => forall k, strip (fst (stamp x k)) = strip x) l ->
  forall k, strip_attributes (fst (visit_each stamp l k)) = strip_attributes l.
Proof.
  induction l as [|x rest IH]; intros H k; [reflexivity|].
  inversion H as [|? ? Hx Hrest]; subst. simpl.
  specialize (Hx k).
  pose proof (stamp_isEditIdAttribute webRelativeFilePath x k) as Hflag.
  destruct (stamp x k) as [x' k1]. simpl in Hx, Hflag.
  specialize (IH Hrest k1). destruct (visit_each stamp rest k1) as [rest' k2].
  simpl in *. now rewrite Hflag, Hx, IH.
Qed.

(** A tree none of whose opening tags needs an identifier goes through
    the pass unchanged, whatever path the pass is run with. *)
Lemma stamp_nothing_needed n :
  Forall (fun m => needsId m = false) (openings n) ->
  forall k, stamp n k = (n, k).
Proof.
  induction n as
    [o children IHo IHc|l name attributes IHa|name v IHv|name|value raw|value
    |kind sub IHs] using node_induction; intros Hall k; simpl in *.
  - apply Forall_app in Hall as [Ho Hc].
    rewrite (IHo Ho).
    rewrite (visit_each_unchanged _ _ (Forall_flat_map_openings _ _ _ IHc Hc)).
    reflexivity.
  - inversion Hall as [|? ? Hid Hattrs]; subst.
    pose proof (visit_each_unchanged _ _
                  (Forall_flat_map_openings _ _ _ IHa Hattrs)) as Hsame.
    unfold needsId in Hid. simpl in Hid. unfold newAttribute.
    destruct l as [start|]; simpl in Hid.
    + destruct (alreadyHasId attributes); [|discriminate]. now rewrite Hsame.
    + now rewrite Hsame.
  - now rewrite (IHv Hall).
  - reflexivity.
  - reflexivity.
  - reflexivity.
  - rewrite (visit_each_unchanged _ _ (Forall_flat_map_openings _ _ _ IHs Hall)).
    reflexivity.
Qed.

Lemma visit_each_settled (P : node -> Prop) l :
  Forall (fun x => forall k, Forall P (openings (fst (stamp x k)))) l ->
  forall k, Forall P (flat_map openings (fst (visit_each stamp l k))).
Proof.
  induction l as [|x rest IH]; intros H k; [constructor|].
  inversion H as [|? ? Hx Hrest]; subst. simpl.
  specialize (Hx k). destruct (stamp x k) as [x' k1]. simpl in Hx.
  specialize (IH Hrest k1). destruct (visit_each stamp rest k1) as [rest' k2].
  simpl in *. apply Forall_app. now split.
Qed.

Lemma alreadyHasId_visit_each l k :
  alreadyHasId (fst (visit_each stamp l k)) = alreadyHasId l.
Proof.
  unfold alreadyHasId.
  pose proof (visit_each_idFlags webRelativeFilePath l k) as Hflags.
  revert Hflags. generalize (fst (visit_each stamp l k)) as l'.
  induction l as [|x rest IH]; intros [|x' rest'] H; try discriminate H.
  - reflexivity.
  - simpl in *. injection H as Hx Hrest. now rewrite Hx, (IH _ Hrest).
Qed.

(** After the pass no opening tag needs an identifier. *)
Lemma stamp_settled n k :
  Forall (fun m => needsId m = false) (openings (fst (stamp n k))).
Proof.
  revert k. induction n as
    [o children IHo IHc|l name attributes IHa|name v IHv|name|value raw|value
    |kind sub IHs] using node_induction; intros k; simpl.
  - specialize (IHo k). destruct (stamp o k) as [o' k1]. simpl in IHo.
    pose proof (visit_each_settled _ _ IHc k1) as Hc.
    destruct (visit_each stamp children k1) as [children' k2]. simpl in *.
    apply Forall_app. now split.
  - unfold newAttribute. destruct l as [start|].
    + destruct (alreadyHasId attributes) eqn:Hid.
      * pose proof (visit_each_settled _ _ IHa k) as Ha.
        pose proof (alreadyHasId_visit_each attributes k) as Hkeep.
        destruct (visit_each stamp attributes k) as [attributes' k1].
        simpl in *. constructor; [|exact Ha].
        unfold needsId. simpl. now rewrite Hkeep, Hid.
      * pose proof (visit_each_settled _ _ IHa (S k)) as Ha.
        destruct (visit_each stamp attributes (S k)) as [attributes' k1].
        simpl in *. constructor.
        -- unfold needsId. simpl. unfold alreadyHasId.
           rewrite existsb_app. simpl. now rewrite orb_true_r.
        -- rewrite flat_map_app. simpl. now rewrite app_nil_r.
    + pose proof (visit_each_settled _ _ IHa k) as Ha.
      destruct (visit_each stamp attributes k) as [attributes' k1].
      simpl in *. constructor; [reflexivity|exact Ha].
  - specialize (IHv k). now destruct (stamp v k).
  - constructor.
  - constructor.
  - constructor.
  - pose proof (visit_each_settled _ _ IHs k) as Hs.
    now destruct (visit_each stamp sub k).
Qed.

(** X7: the pass touches nothing but identifier attributes: with the
    identifier attributes taken off, the tree it returns is the tree it
    was given, so every tag name, position, other attribute, text and the
    order of all of them are as they were. *)
Theorem stamp_only_adds_identifiers (babelAst : node) (attributesAdded : nat) :
  strip (fst (stamp babelAst attributesAdded)) = strip babelAst.
Proof.
  revert attributesAdded. rename babelAst into n. induction n as
    [o children IHo IHc|l name attributes IHa|name v IHv|name|value raw|value
    |kind sub IHs] using node_induction; intros k.
  - simpl. specialize (IHo k). destruct (stamp o k) as [o' k1]. simpl in IHo.
    pose proof (visit_each_strip _ IHc k1) as Hc.
    destruct (visit_each stamp children k1) as [children' k2]. simpl in *.
    now rewrite IHo, Hc.
  - rewrite strip_opening. cbn [Ast.stamp].
    destruct (newAttribute webRelativeFilePath l attributes) as [idAttr|] eqn:Hnew.
    + pose proof (visit_each_strip_attributes _ IHa (S k)) as Ha.
      destruct (visit_each stamp attributes (S k)) as [attributes' k1].
      cbn [fst] in *. rewrite strip_opening, strip_attributes_app, Ha.
      unfold newAttribute in Hnew. destruct l; [|discriminate].
      destruct (alreadyHasId attributes); [discriminate|].
      injection Hnew as <-. simpl. now rewrite app_nil_r.
    + pose proof (visit_each_strip_attributes _ IHa k) as Ha.
      destruct (visit_each stamp attributes k) as [attributes' k1].
      cbn [fst] in *. now rewrite strip_opening, Ha.
  - simpl. specialize (IHv k). destruct (stamp v k). simpl in *. now rewrite IHv.
  - reflexivity.
  - reflexivity.
  - reflexivity.
  - simpl. pose proof (visit_each_strip _ IHs k) as Hs.
    destruct (visit_each stamp sub k). simpl in *. now rewrite Hs.
Qed.

End StampMore.

(** X8: the pass is idempotent on every tree: after one run no opening
    tag needs an identifier, and a second run, for whatever file path and
    from whatever count, returns the tree and the count it was given. *)
Theorem stamp_twice
    (webRelativeFilePath webRelativeFilePath' : string) (babelAst : Ast.node)
    (attributesAdded attributesAdded' : nat) :
  Forall (fun m => Tree.needsId m = false)
    (Tree.openings (fst (Ast.stamp webRelativeFilePath babelAst attributesAdded)))
  /\ Ast.stamp webRelativeFilePath'
       (fst (Ast.stamp webRelativeFilePath babelAst attributesAdded)) attributesAdded'
     = (fst (Ast.stamp webRelativeFilePath babelAst attributesAdded), attributesAdded').
Proof.
  pose proof (stamp_settled webRelativeFilePath babelAst attributesAdded) as H.
  split; [exact H|]. now apply stamp_nothing_needed.
Qed.

Section TransformMore.

Import Ast Tree Plugin.

Context (VITE_PROJECT_ROOT : string).
Context (parse : string -> option node).
Context (generate : node -> string -> option string).

Local Abbreviation transform := (Plugin.transform VITE_PROJECT_ROOT parse generate).

(** X9: [transform] returns code exactly when the file passes the guard,
    the parser returns a tree, at least one opening tag of it needs an
    identifier, and the generator returns; the code is then what the
    generator makes of the stamped tree.  In every other case the hook
    returns [null] and the file is served as it is. *)
Theorem transform_returns_code (code id out : string) :
  transform code id = Some out <->
  transformable VITE_PROJECT_ROOT id = true
  /\ exists babelAst,
       parse code = Some babelAst
       /\ Exists (fun m => needsId m = true) (openings babelAst)
       /\ generate
            (fst (stamp (Shape.webRelativeFilePath VITE_PROJECT_ROOT id) babelAst 0%nat))
            code = Some out.
Proof.
  unfold Plugin.transform, Shape.webRelativeFilePath.
  set (file := Js.join "/" (Js.split Path.sep (Path.relative VITE_PROJECT_ROOT id))).
  destruct (transformable VITE_PROJECT_ROOT id); simpl.
  2:{ split; [discriminate|]. intros [H _]. discriminate H. }
  destruct (parse code) as [babelAst|].
  2:{ split; [discriminate|]. intros (_ & ? & H & _). discriminate H. }
  pose proof (stamp_count file babelAst 0) as Hcount.
  destruct (stamp file babelAst 0) as [stamped attributesAdded] eqn:Hstamp.
  simpl in Hcount.
  assert (Hsome : (0 <? attributesAdded)%nat = true
                  <-> Exists (fun m => needsId m = true) (openings babelAst)).
  { rewrite Hcount, Nat.ltb_lt. clear.
    induction (openings babelAst) as [|m rest IH]; simpl.
    - split; [lia|]. intros H. inversion H.
    - destruct (needsId m) eqn:E; simpl.
      + split; [intros _; now constructor|lia].
      + rewrite IH. split; [now constructor 2|].
        intros H. inversion H; subst; [congruence|assumption]. }
  split.
  - intros H. split; [reflexivity|]. exists babelAst.
    destruct (0 <? attributesAdded)%nat; [|discriminate H].
    repeat split; [now apply Hsome|now rewrite Hstamp].
  - intros (_ & babelAst' & Hparse & Hex & Hgen).
    injection Hparse as <-. rewrite Hstamp in Hgen.
    apply Hsome in Hex. now rewrite Hex.
Qed.

End TransformMore.

(** ** The listener *)

Section ListenerFacts.

Import Plugin Run Listener.
Local Open Scope list_scope.

Lemma htmlElement_induction (P : htmlElement -> Prop) :
  (forall editable text attribute, P (HTMLElement editable text attribute None)) ->
  (forall editable text attribute parent,
     P parent -> P (HTMLElement editable text attribute (Some parent))) ->
  forall element, P element.
Proof.
  intros Htop Hchild. fix IH 1.
  intros [editable text attribute [parent|]].
  - apply Hchild, IH.
  - apply Htop.
Qed.

Lemma ancestry_head element : exists rest, ancestry element = element :: rest.
Proof. destruct element as [? ? ? [parent|]]; simpl; eauto. Qed.

(** The loop entered at depth [searchDepth] looks at the element and at
    the next [10 - searchDepth] ancestors. *)
Lemma search_find element :
  forall searchDepth, (searchDepth <= 10)%nat ->
    search element searchDepth
    = find hasAttribute (firstn (11 - searchDepth) (ancestry element)).
Proof.
  induction element as [editable text attribute|editable text attribute parent IH]
    using htmlElement_induction; intros d Hd.
  - replace (11 - d)%nat with (S (10 - d)) by lia.
    destruct attribute; simpl; [reflexivity|].
    now destruct (10 - d)%nat.
  - replace (11 - d)%nat with (S (10 - d)) by lia.
    destruct attribute as [a|]; [reflexivity|].
    cbn [search ancestry firstn find hasAttribute getAttribute].
    destruct (Nat.ltb_spec 10 (S d)) as [Hdeep|Hnear].
    + replace (10 - d)%nat with 0%nat by lia. reflexivity.
    + rewrite IH by lia. now replace (11 - S d)%nat with (10 - d)%nat by lia.
Qed.

Lemma parseEditId_agrees editId :
  Listener.parseEditId editId = Codec.parseEditId editId.
Proof.
  unfold Listener.parseEditId, Codec.parseEditId, Listener.pop.
  destruct (length (Js.split ":" editId) <? 3)%nat; [reflexivity|].
  destruct (Js.pop (Js.split ":" editId)) as [[endOffsetStr parts1]|] eqn:Hlast.
  - destruct (Js.pop parts1) as [[startOffsetStr parts2]|]; reflexivity.
  - rewrite Hlast. reflexivity.
Qed.

Lemma edit_Some target editId newValue :
  edit target = Some (editId, newValue) ->
  Js.falsy editId = false /\ Codec.parseEditId editId <> None.
Proof.
  unfold edit. destruct target as [target|]; [|discriminate].
  destruct (negb (isContentEditable target)); [discriminate|].
  destruct (search target 0) as [element|]; [|discriminate].
  destruct (getAttribute element) as [attribute|]; [|discriminate].
  destruct (Js.falsy attribute) eqn:Hfalsy; [discriminate|].
  destruct (Listener.parseEditId attribute) as [parsedId|] eqn:Hid; [|discriminate].
  intros [= <- <-]. split; [exact Hfalsy|].
  rewrite <- parseEditId_agrees, Hid. discriminate.
Qed.

Lemma response_for_not_ok c : ok (response_for c) = false.
Proof. destruct c; reflexivity. Qed.

End ListenerFacts.

(** X10: the listener's decoder and the plugin's decoder agree on every
    string: the [typeof] test of the listener never fires once the array
    has three parts, so an identifier the listener lets through is one
    the plugin decodes, to the same path and numbers. *)
Theorem listener_parseEditId_agrees (editId : string) :
  Listener.parseEditId editId = Codec.parseEditId editId.
Proof.
  unfold Listener.parseEditId, Codec.parseEditId, Listener.pop.
  destruct (length (Js.split ":" editId) <? 3)%nat; [reflexivity|].
  destruct (Js.pop (Js.split ":" editId)) as [[endOffsetStr parts1]|] eqn:Hlast.
  - destruct (Js.pop parts1) as [[startOffsetStr parts2]|]; reflexivity.
  - rewrite Hlast. reflexivity.
Qed.

(** X11: the search for the identifier looks at the target and at its
    first ten ancestors, nearest first, and ends on the first of them
    that has the attribute; an attribute further up is never found, and
    an element with the attribute hides the ones above it, whatever the
    attribute holds. *)
Theorem search_nearest (target : Listener.htmlElement) :
  Listener.search target 0
  = find Listener.hasAttribute (firstn 11 (Listener.ancestry target)).
Proof. apply (search_find target 0). lia. Qed.

Section ListenerClaims.

Import Plugin Run Listener.
Local Open Scope list_scope.

Context (VITE_PROJECT_ROOT : string).
Context (parse : string -> option Ast.node).
Context (generate : Ast.node -> string -> option string).

Local Abbreviation applyEdit := (Plugin.applyEdit VITE_PROJECT_ROOT parse generate).
Local Abbreviation failure := (Run.failure VITE_PROJECT_ROOT parse generate).
Local Abbreviation devServer := (Listener.devServer VITE_PROJECT_ROOT parse generate).
Local Abbreviation resolve := (Path.resolve VITE_PROJECT_ROOT).

(** X12: what the listener sends the plugin never fails on its form: the
    request is a POST with both fields, the identifier is not empty and
    the plugin decodes it, so the plugin answers neither with the
    missing-fields nor with the invalid-identifier response; the new
    value is the text of the edited element, the empty string when it
    has none. *)
Theorem listener_request_wellformed (target : eventTarget) (editId newValue : string) :
  edit target = Some (editId, newValue) ->
  (exists element, target = Element element
                   /\ newValue = default "" (textContent element))
  /\ (exists filePath targetLine targetColumn,
        Codec.parseEditId editId = Some (filePath, targetLine, targetColumn))
  /\ forall w,
       let req := applyEditRequest editId newValue in
       failure req w <> Some UnparsableBody
       /\ failure req w <> Some MissingFields
       /\ failure req w <> Some InvalidIdentifier
       /\ fst (applyEdit req w) <> Next
       /\ fst (applyEdit req w) <> Sent missingFields
       /\ fst (applyEdit req w) <> Sent invalidEditId.
Proof.
  intros Hedit. destruct (edit_Some _ _ _ Hedit) as [Hfalsy Hid].
  destruct (Codec.parseEditId editId)
    as [[[filePath targetLine] targetColumn]|] eqn:Hparsed; [clear Hid|congruence].
  split; [|split].
  - unfold edit in Hedit. destruct target as [element|]; [|discriminate].
    exists element. split; [reflexivity|].
    destruct (negb (isContentEditable element)); [discriminate|].
    destruct (search element 0) as [found|]; [|discriminate].
    destruct (getAttribute found) as [attribute|]; [|discriminate].
    destruct (Js.falsy attribute); [discriminate|].
    destruct (Listener.parseEditId attribute); [|discriminate].
    now injection Hedit as _ <-.
  - eauto.
  - intros w req.
    assert (Hcause : failure req w <> Some UnparsableBody
                     /\ failure req w <> Some MissingFields
                     /\ failure req w <> Some InvalidIdentifier).
    { unfold Run.failure, req. simpl. rewrite Hfalsy, Hparsed.
      destruct (pathRefused _ _ _); [repeat split; discriminate|].
      destruct (files w !! _); [|repeat split; discriminate].
      destruct (parse _); [|repeat split; discriminate].
      destruct (Ast.locate _ _ _); [|repeat split; discriminate].
      destruct (Ast.modifyParent _ _); [|repeat split; discriminate].
      destruct (generate _ _); repeat split; discriminate. }
    destruct Hcause as (Hbody & Hfields & Hident).
    repeat split; try assumption.
    + destruct (failure req w) as [c|] eqn:Hf.
      * destruct (applyEdit_failure _ _ _ req w _ eq_refl Hf) as [-> _]. discriminate.
      * destruct (applyEdit_no_failure _ _ _ req w eq_refl Hf) as (? & ? & ->).
        discriminate.
    + destruct (failure req w) as [c|] eqn:Hf.
      * destruct (applyEdit_failure _ _ _ req w _ eq_refl Hf) as [-> _].
        destruct c; try discriminate; congruence.
      * destruct (applyEdit_no_failure _ _ _ req w eq_refl Hf) as (? & ? & ->).
        discriminate.
    + destruct (failure req w) as [c|] eqn:Hf.
      * destruct (applyEdit_failure _ _ _ req w _ eq_refl Hf) as [-> _].
        destruct c; try discriminate; congruence.
      * destruct (applyEdit_no_failure _ _ _ req w eq_refl Hf) as (? & ? & ->).
        discriminate.
Qed.

(** X13: the listener against the plugin.  A message is posted to the
    parent window only after the plugin has answered with success, that
    is after the file was written; the message is of type [editApplied],
    is addressed to the editor's origin, and its [newValue] is the whole
    new content of the file, which is what the file now holds, not the
    text that was typed.  When no message is posted every file is as it
    was. *)
Theorem handleInlineEdit_posts_after_write next (target : eventTarget) (w : world) :
  match fst (handleInlineEdit (devServer next) target w) with
  | Some posted =>
      exists editId newValue filePath newContent,
        edit target = Some (editId, newValue)
        /\ applyEdit (applyEditRequest editId newValue) w
           = (Sent (Success filePath newContent),
              snd (handleInlineEdit (devServer next) target w))
        /\ posted = {| type := "editApplied";
                       Listener.editId := editId;
                       Listener.newValue := Some newContent;
                       targetOrigin := "http://localhost:3000" |}
        /\ files (snd (handleInlineEdit (devServer next) target w))
             !! resolve filePath = Some newContent
  | None => files (snd (handleInlineEdit (devServer next) target w)) = files w
  end.
Proof.
  unfold handleInlineEdit.
  destruct (edit target) as [[editId newValue]|] eqn:Hedit; [|reflexivity].
  unfold Listener.devServer.
  set (req := applyEditRequest editId newValue).
  destruct (failure req w) as [c|] eqn:Hf.
  - destruct (applyEdit_failure _ _ _ req w _ eq_refl Hf) as [Hr Hw].
    destruct (applyEdit req w) as [r w'] eqn:Hrun. simpl in Hr, Hw. subst r.
    rewrite response_for_not_ok. simpl.
    destruct Hw as [->|[abs ->]]; reflexivity.
  - destruct (applyEdit_no_failure _ _ _ req w eq_refl Hf)
      as (filePath & newContent & Hrun).
    rewrite Hrun. simpl.
    exists editId, newValue, filePath, newContent.
    split; [reflexivity|]. split; [exact Hrun|]. split; [reflexivity|].
    apply lookup_insert_eq.
Qed.

End ListenerClaims.

(** X18: when the listener sends.  An input event leads to a request
    exactly when its target is an editable element, the nearest element
    with the attribute among the target and its first ten ancestors
    holds an identifier the plugin's decoder accepts; the request then
    carries that identifier and the text of the target, the empty string
    when it has none.  In every other case nothing is sent. *)
Theorem edit_sends_iff (target : Listener.eventTarget) (editId newValue : string) :
  Listener.edit target = Some (editId, newValue) <->
  exists element found,
    target = Listener.Element element
    /\ Listener.isContentEditable element = true
    /\ find Listener.hasAttribute (firstn 11 (Listener.ancestry element)) = Some found
    /\ Listener.getAttribute found = Some editId
    /\ Codec.parseEditId editId <> None
    /\ newValue = default "" (Listener.textContent element).
Proof.
  unfold Listener.edit. split.
  - destruct target as [element|]; [|discriminate].
    destruct (Listener.isContentEditable element) eqn:Heditable; [|discriminate].
    simpl. rewrite (search_find element 0) by lia.
    change (11 - 0)%nat with 11%nat.
    destruct (find Listener.hasAttribute (firstn 11 (Listener.ancestry element)))
      as [found|] eqn:Hfound; [|discriminate].
    destruct (Listener.getAttribute found) as [attribute|] eqn:Hattribute;
      [|discriminate].
    destruct (Js.falsy attribute); [discriminate|].
    rewrite parseEditId_agrees.
    destruct (Codec.parseEditId attribute) as [parsedId|] eqn:Hid; [|discriminate].
    intros [= <- <-]. exists element, found.
    repeat split; try assumption. rewrite Hid. discriminate.
  - intros (element & found & -> & Heditable & Hfound & Hattribute & Hid & ->).
    rewrite Heditable. simpl. rewrite (search_find element 0) by lia.
    change (11 - 0)%nat with 11%nat. rewrite Hfound, Hattribute.
    rewrite parseEditId_agrees.
    destruct (Codec.parseEditId editId) as [parsedId|] eqn:Hparsed; [|congruence].
    now rewrite (parseEditId_Some_nonempty _ _ Hparsed).
Qed.

(** ** The offset helper *)

Section DraftFacts.

Import Draft.
Local Open Scope list_scope.

Lemma scan_snoc units unit i line lastNewline :
  scan (units ++ [unit]) i line lastNewline
  = (if (unit =? newline)%N
     then (fst (scan units i line lastNewline) + 1, i + Z.of_nat (length units))
     else scan units i line lastNewline).
Proof.
  revert i line lastNewline.
  induction units as [|x rest IH]; intros i line lastNewline; simpl.
  - destruct (unit =? newline)%N; [|reflexivity]. f_equal. lia.
  - destruct (x =? newline)%N; rewrite IH;
      (destruct (unit =? newline)%N; [|reflexivity]); f_equal; lia.
Qed.

Lemma firstn_snoc (content : list N) n :
  (n < length content)%nat ->
  firstn (S n) content = firstn n content ++ [nth n content 0%N].
Proof.
  revert n. induction content as [|x rest IH]; intros n Hn; simpl in Hn; [lia|].
  destruct n as [|n]; [reflexivity|].
  change (firstn (S (S n)) (x :: rest)) with (x :: firstn (S n) rest).
  rewrite IH by lia. reflexivity.
Qed.

Lemma getLineColFromOffset_in_range content offset :
  0 <= offset <= Z.of_nat (length content) ->
  getLineColFromOffset content offset
  = Some (fst (scan (firstn (Z.to_nat offset) content) 0 1 (-1)),
          offset - snd (scan (firstn (Z.to_nat offset) content) 0 1 (-1))).
Proof.
  intros Hrange. unfold getLineColFromOffset.
  destruct (Z.ltb_spec offset 0); [lia|].
  destruct (Z.ltb_spec (Z.of_nat (length content)) offset); [lia|]. simpl.
  now destruct (scan _ _ _ _).
Qed.

(** One step to the right: past a line feed the position is the start of
    the next line, past any other unit it is one column further. *)
Lemma getLineColFromOffset_next content offset line column :
  0 <= offset < Z.of_nat (length content) ->
  getLineColFromOffset content offset = Some (line, column) ->
  getLineColFromOffset content (offset + 1)
  = Some (if (unitAt content offset =? newline)%N then (line + 1, 1)
          else (line, column + 1)).
Proof.
  intros Hrange Hat.
  rewrite getLineColFromOffset_in_range in Hat by lia.
  rewrite getLineColFromOffset_in_range by lia.
  replace (Z.to_nat (offset + 1)) with (S (Z.to_nat offset)) by lia.
  rewrite firstn_snoc by lia. rewrite scan_snoc. fold (unitAt content offset).
  rewrite length_firstn.
  replace (Init.Nat.min (Z.to_nat offset) (length content)) with (Z.to_nat offset)
    by lia.
  injection Hat as Hline Hcolumn.
  destruct (unitAt content offset =? newline)%N; simpl; f_equal; f_equal; lia.
Qed.

Lemma before_trans p q r : before p q -> before q r -> before p r.
Proof. unfold before. lia. Qed.

Lemma getLineColFromOffset_range content offset p :
  getLineColFromOffset content offset = Some p ->
  0 <= offset <= Z.of_nat (length content).
Proof.
  unfold getLineColFromOffset.
  destruct (Z.ltb_spec offset 0); [discriminate|].
  destruct (Z.ltb_spec (Z.of_nat (length content)) offset); [discriminate|]. lia.
Qed.

Lemma getLineColFromOffset_forward content (distance : nat) :
  forall offset p q,
    getLineColFromOffset content offset = Some p ->
    getLineColFromOffset content (offset + Z.of_nat (S distance)) = Some q ->
    before p q.
Proof.
  induction distance as [|distance IH]; intros offset [line column] q Hp Hq;
    pose proof (getLineColFromOffset_range _ _ _ Hp) as Hlow;
    pose proof (getLineColFromOffset_range _ _ _ Hq) as Hhigh;
    assert (Hrange : 0 <= offset < Z.of_nat (length content)) by lia;
    pose proof (getLineColFromOffset_next _ _ _ _ Hrange Hp) as Hnext;
    assert (Hstep : before (line, column)
                      (if (unitAt content offset =? newline)%N then (line + 1, 1)
                       else (line, column + 1)))
      by (unfold before; destruct (unitAt content offset =? newline)%N; simpl; lia).
  - change (Z.of_nat 1) with 1 in Hq. rewrite Hnext in Hq. now injection Hq as <-.
  - replace (offset + Z.of_nat (S (S distance)))
      with (offset + 1 + Z.of_nat (S distance)) in Hq by lia.
    exact (before_trans _ _ _ Hstep (IH _ _ _ Hnext Hq)).
Qed.

End DraftFacts.

(** X14: what [getLineColFromOffset] computes.  It returns [null] exactly
    for an offset below zero or beyond the end of the content; offset
    zero is line 1, column 1; and one step to the right is the start of
    the next line when the unit stepped over is a line feed, and one
    column further on the same line otherwise. *)
Theorem getLineColFromOffset_walk (content : list N) :
  (forall offset,
     Draft.getLineColFromOffset content offset = None
     <-> offset < 0 \/ Z.of_nat (length content) < offset)
  /\ Draft.getLineColFromOffset content 0 = Some (1, 1)
  /\ (forall offset line column,
        0 <= offset < Z.of_nat (length content) ->
        Draft.getLineColFromOffset content offset = Some (line, column) ->
        Draft.getLineColFromOffset content (offset + 1)
        = Some (if (Draft.unitAt content offset =? Draft.newline)%N
                then (line + 1, 1) else (line, column + 1))).
Proof.
  split; [|split].
  - intros offset. unfold Draft.getLineColFromOffset.
    destruct (Z.ltb_spec offset 0);
      destruct (Z.ltb_spec (Z.of_nat (length content)) offset); simpl;
      try (split; [intros _; lia|reflexivity]).
    destruct (Draft.scan _ _ _ _). split; [discriminate|lia].
  - unfold Draft.getLineColFromOffset.
    destruct (Z.ltb_spec (Z.of_nat (length content)) 0); [lia|]. reflexivity.
  - apply getLineColFromOffset_next.
Qed.

(** X15: positions follow offsets: of two offsets of the same content the
    smaller one gets the earlier position, so two different offsets never
    get the same line and column. *)
Theorem getLineColFromOffset_monotone
    (content : list N) (offset offset' : Z) (p p' : Z * Z) :
  Draft.getLineColFromOffset content offset = Some p ->
  Draft.getLineColFromOffset content offset' = Some p' ->
  (offset < offset' -> Draft.before p p')
  /\ (p = p' -> offset = offset').
Proof.
  intros Hp Hp'.
  assert (Hlt : forall o o' q q',
             Draft.getLineColFromOffset content o = Some q ->
             Draft.getLineColFromOffset content o' = Some q' ->
             o < o' -> Draft.before q q').
  { intros o o' q q' Hq Hq' Hlt.
    apply (getLineColFromOffset_forward content (Z.to_nat (o' - o) - 1) o); auto.
    replace (o + Z.of_nat (S (Z.to_nat (o' - o) - 1))) with o' by lia. exact Hq'. }
  split; [now apply Hlt|].
  intros ->.
  destruct (Z.lt_trichotomy offset offset') as [H|[H|H]]; [|exact H|].
  - specialize (Hlt _ _ _ _ Hp Hp' H). unfold Draft.before in Hlt. lia.
  - specialize (Hlt _ _ _ _ Hp' Hp H). unfold Draft.before in Hlt. lia.
Qed.

(** ** Files under the project root *)

Section LayoutFacts.

Import Layout.
Local Open Scope list_scope.

Lemma segment_spec seg :
  segment seg = true ->
  seg <> "" /\ seg <> "." /\ seg <> ".." /\ sep_free "/" seg = true.
Proof.
  unfold segment. intros H.
  apply andb_prop in H as [H Hfree]. apply andb_prop in H as [H Hparent].
  apply andb_prop in H as [Hempty Hdot].
  repeat split; try assumption; intros ->; discriminate.
Qed.

Lemma slash_append (s : string) : ("/" ++ s)%string = String "/" s.
Proof. now rewrite append_cons, append_nil_l. Qed.

(** Splitting what was joined from segments gives the segments back. *)
Lemma split_join (segs : list string) :
  segs <> [] -> Forall (fun seg => segment seg = true) segs ->
  Js.split "/" (Js.join "/" segs) = segs.
Proof.
  unfold Js.join. induction segs as [|x rest IH]; [congruence|]. intros _ Hall.
  inversion Hall as [|? ? Hx Hrest]; subst.
  destruct (segment_spec _ Hx) as (_ & _ & _ & Hfree).
  destruct rest as [|y rest'].
  - simpl. now apply split_sep_free.
  - rewrite concat_cons by discriminate. rewrite slash_append, split_app_sep.
    rewrite (split_sep_free _ _ Hfree), IH by (discriminate || assumption).
    reflexivity.
Qed.

Lemma normalize_segments (segs stack : list string) :
  Forall (fun seg => segment seg = true) segs ->
  fold_left Path.normalize_step segs stack = stack ++ segs.
Proof.
  revert stack. induction segs as [|x rest IH]; intros stack Hall; simpl.
  - now rewrite app_nil_r.
  - inversion Hall as [|? ? Hx Hrest]; subst.
    destruct (segment_spec _ Hx) as (Hempty & Hdot & Hparent & _).
    rewrite (IH _ Hrest). unfold Path.normalize_step.
    apply String.eqb_neq in Hempty, Hdot, Hparent.
    rewrite Hempty, Hdot, Hparent. simpl. now rewrite <- app_assoc.
Qed.

(** The segments of the joined root are the root's. *)
Lemma normalize_joined (segs : list string) :
  Forall (fun seg => segment seg = true) segs ->
  fold_left Path.normalize_step (Js.split "/" (Js.join "/" segs)) [] = segs.
Proof.
  intros Hall. destruct segs as [|x rest]; [reflexivity|].
  rewrite split_join by (discriminate || assumption).
  now apply normalize_segments.
Qed.

Lemma segments_of_segments (segs : list string) :
  Forall (fun seg => segment seg = true) segs ->
  Path.segments (Path.of_segments segs) = segs.
Proof.
  intros Hall. unfold Path.segments, Path.of_segments, Path.normalize.
  cbn [Js.split]. rewrite Ascii.eqb_refl. cbn [fold_left].
  change (Path.normalize_step [] "") with (@nil string).
  now apply normalize_joined.
Qed.

Lemma segments_below (rootSegs relSegs : list string) :
  Forall (fun seg => segment seg = true) rootSegs ->
  Forall (fun seg => segment seg = true) relSegs ->
  relSegs <> [] ->
  Path.segments (Path.of_segments rootSegs ++ "/" ++ Js.join "/" relSegs)
  = rootSegs ++ relSegs.
Proof.
  intros Hroot Hrel Hne. unfold Path.segments, Path.of_segments, Path.normalize.
  rewrite slash_append, append_cons. cbn [Js.split]. rewrite Ascii.eqb_refl.
  rewrite split_app_sep, (split_join relSegs Hne Hrel).
  cbn [fold_left]. change (Path.normalize_step [] "") with (@nil string).
  rewrite fold_left_app, (normalize_joined _ Hroot).
  now apply normalize_segments.
Qed.

Lemma join_head (x : string) (rest : list string) :
  exists tail, Js.join "/" (x :: rest) = (x ++ tail)%string.
Proof.
  unfold Js.join. destruct rest as [|y rest'].
  - exists ""%string. simpl. now rewrite append_nil_r.
  - rewrite concat_cons by discriminate. eauto.
Qed.

(** A joined relative path does not start with a slash. *)
Lemma join_relative (relSegs : list string) :
  Forall (fun seg => segment seg = true) relSegs ->
  Js.startsWith "/" (Js.join "/" relSegs) = false.
Proof.
  intros Hrel. destruct relSegs as [|x rest]; [reflexivity|].
  inversion Hrel as [|? ? Hx _]; subst.
  destruct (segment_spec _ Hx) as (Hempty & _ & _ & Hfree).
  destruct (join_head x rest) as [tail ->].
  destruct x as [|c x']; [congruence|]. rewrite append_cons.
  simpl in Hfree. apply andb_prop in Hfree as [Hc _].
  unfold Js.startsWith. cbn [String.prefix].
  destruct (ascii_dec "/" c) as [<-|_]; [discriminate Hc|reflexivity].
Qed.

Lemma strip_common_app (a b : list string) :
  Path.strip_common a (a ++ b) = ([], b).
Proof.
  induction a as [|x rest IH]; simpl.
  - now destruct b.
  - now rewrite String.eqb_refl.
Qed.

Lemma resolve_below (rootSegs relSegs : list string) :
  Forall (fun seg => segment seg = true) rootSegs ->
  Forall (fun seg => segment seg = true) relSegs ->
  relSegs <> [] ->
  Path.resolve (Path.of_segments rootSegs) (Js.join "/" relSegs)
  = below rootSegs relSegs.
Proof.
  intros Hroot Hrel Hne. unfold Path.resolve, below.
  rewrite (join_relative _ Hrel). now rewrite segments_below.
Qed.

Lemma relative_below (rootSegs relSegs : list string) :
  Forall (fun seg => segment seg = true) rootSegs ->
  Forall (fun seg => segment seg = true) relSegs ->
  Path.relative (Path.of_segments rootSegs) (below rootSegs relSegs)
  = Js.join "/" relSegs.
Proof.
  intros Hroot Hrel. unfold Path.relative, below.
  rewrite (segments_of_segments _ Hroot).
  rewrite segments_of_segments by (apply Forall_app; now split).
  now rewrite strip_common_app.
Qed.

Lemma webRelativeFilePath_below (rootSegs relSegs : list string) :
  Forall (fun seg => segment seg = true) rootSegs ->
  Forall (fun seg => segment seg = true) relSegs ->
  Shape.webRelativeFilePath (Path.of_segments rootSegs) (below rootSegs relSegs)
  = Js.join "/" relSegs.
Proof.
  intros Hroot Hrel. unfold Shape.webRelativeFilePath.
  rewrite (relative_below _ _ Hroot Hrel). apply (join_split "/"%char).
Qed.

Lemma join_nonempty (relSegs : list string) :
  Forall (fun seg => segment seg = true) relSegs ->
  relSegs <> [] -> Js.join "/" relSegs <> "".
Proof.
  intros Hrel Hne. destruct relSegs as [|x rest]; [congruence|].
  inversion Hrel as [|? ? Hx _]; subst.
  destruct (segment_spec _ Hx) as (Hempty & _).
  destruct (join_head x rest) as [tail ->].
  destruct x; [congruence|]. rewrite append_cons. discriminate.
Qed.

End LayoutFacts.

(** ** From the stamped attribute to the file that is patched *)

Section EndToEnd.

Import Ast Tree Plugin Run Layout.
Local Open Scope list_scope.

Context (parse : string -> option node).
Context (generate : node -> string -> option string).

(** X16: the two passes agree on the file.  For a file below the project
    root that [transform] accepts, and whose relative path has no two
    dots in a row, the identifier the pass puts on an opening tag makes
    the edit handler read that very file: the request the listener sends
    with it passes the decoder and the path test, resolves to the path
    [transform] was given, and gets as far as the locate step on the
    tree parsed from the file, where an opening tag is found at the
    position the identifier holds. *)
Theorem stamped_identifier_reaches_file
    (VITE_PROJECT_ROOT id : string) (rootSegs relSegs : list string)
    (w : world) (code newValue : string) (babelAst : node)
    (l : option position) (name : string) (attributes : list node) (idAttr : node) :
  VITE_PROJECT_ROOT = Path.of_segments rootSegs ->
  id = below rootSegs relSegs ->
  Forall (fun seg => segment seg = true) rootSegs ->
  Forall (fun seg => segment seg = true) relSegs ->
  relSegs <> [] ->
  transformable VITE_PROJECT_ROOT id = true ->
  Js.includes ".." (Js.join "/" relSegs) = false ->
  files w !! id = Some code ->
  parse code = Some babelAst ->
  In (JSXOpeningElement l name attributes) (openings babelAst) ->
  newAttribute (Shape.webRelativeFilePath VITE_PROJECT_ROOT id) l attributes
  = Some idAttr ->
  exists editId targetLine targetColumn target,
    idAttr = idAttribute editId
    /\ Path.resolve VITE_PROJECT_ROOT (Js.join "/" relSegs) = id
    /\ reachesLocate VITE_PROJECT_ROOT parse
         (Listener.applyEditRequest editId newValue) w
         newValue (Js.join "/" relSegs) targetLine targetColumn code babelAst
    /\ locate targetLine targetColumn babelAst = Some target
    /\ opens_at targetLine targetColumn (snd target) = true.
Proof.
  intros -> -> Hroot Hrel Hne Hguard Hdots Hfile Hparse Hin Hnew.
  rewrite (webRelativeFilePath_below _ _ Hroot Hrel) in Hnew.
  unfold newAttribute in Hnew.
  destruct l as [start|]; [|discriminate].
  destruct (alreadyHasId attributes); [discriminate|].
  injection Hnew as <-.
  set (targetLine := line start). set (targetColumn := column start + 1).
  assert (Hopens : opens_at targetLine targetColumn
                     (JSXOpeningElement (Some start) name attributes) = true).
  { unfold opens_at, at_position, targetLine, targetColumn.
    now rewrite !Z.eqb_refl. }
  destruct (locate targetLine targetColumn babelAst) as [[p m]|] eqn:Hloc.
  2:{ exfalso. apply locate_None_iff in Hloc.
      rewrite List.Forall_forall in Hloc. specialize (Hloc _ Hin). congruence. }
  exists (Codec.formatEditId (Js.join "/" relSegs) targetLine targetColumn),
    targetLine, targetColumn, (p, m).
  pose proof (resolve_below _ _ Hroot Hrel Hne) as Hresolve.
  split; [reflexivity|]. split; [exact Hresolve|]. split; [|split].
  - eexists. split; [reflexivity|]. split; [reflexivity|].
    split; [apply formatEditId_decodes, join_nonempty; assumption|].
    rewrite Hresolve. split; [|split; assumption].
    unfold transformable in Hguard.
    apply andb_prop in Hguard as [Hguard Hmodules].
    apply andb_prop in Hguard as [_ Hprefix].
    unfold pathRefused. rewrite Hdots, Hprefix.
    now destruct (Js.includes "node_modules" _).
  - exact Hloc.
  - exact (locate_opens_at _ _ _ _ _ Hloc).
Qed.

(** X17: and where they do not.  The handler refuses every path with two
    dots in a row, also inside a file name: for such a file below the
    project root, every identifier [transform] mints is answered with the
    invalid-path response and the file is not read. *)
Theorem stamped_identifier_refused
    (VITE_PROJECT_ROOT id : string) (rootSegs relSegs : list string)
    (w : world) (newValue : string) (targetLine targetColumn : Z) :
  VITE_PROJECT_ROOT = Path.of_segments rootSegs ->
  id = below rootSegs relSegs ->
  Forall (fun seg => segment seg = true) rootSegs ->
  Forall (fun seg => segment seg = true) relSegs ->
  relSegs <> [] ->
  Js.includes ".." (Js.join "/" relSegs) = true ->
  applyEdit VITE_PROJECT_ROOT parse generate
    (Listener.applyEditRequest
       (Codec.formatEditId (Shape.webRelativeFilePath VITE_PROJECT_ROOT id)
          targetLine targetColumn) newValue) w
  = (Sent invalidPath, w).
Proof.
  intros -> -> Hroot Hrel Hne Hdots.
  rewrite (webRelativeFilePath_below _ _ Hroot Hrel).
  apply (applyEdit_refused (Path.of_segments rootSegs) parse generate
           (Listener.applyEditRequest
              (Codec.formatEditId (Js.join "/" relSegs) targetLine targetColumn)
              newValue)
           w (Codec.formatEditId (Js.join "/" relSegs) targetLine targetColumn)
           newValue (Js.join "/" relSegs) targetLine targetColumn);
    try reflexivity.
  - apply formatEditId_decodes, join_nonempty; assumption.
  - unfold pathRefused. now rewrite Hdots.
Qed.

End EndToEnd.

(** ** The statements above, on the sample project *)

Lemma listener_request_wellformed_witness :
  (exists element,
     Listener.Element SamplePage.span = Listener.Element element
     /\ "Hi" = default "" (Listener.textContent element))
  /\ (exists filePath targetLine targetColumn,
        Codec.parseEditId "a.tsx:3:5" = Some (filePath, targetLine, targetColumn))
  /\ forall w,
       let req := Listener.applyEditRequest "a.tsx:3:5" "Hi" in
       Run.failure Sample.root Sample.parse Sample.generate req w
       <> Some Run.UnparsableBody
       /\ Run.failure Sample.root Sample.parse Sample.generate req w
          <> Some Run.MissingFields
       /\ Run.failure Sample.root Sample.parse Sample.generate req w
          <> Some Run.InvalidIdentifier
       /\ fst (Plugin.applyEdit Sample.root Sample.parse Sample.generate req w)
          <> Plugin.Next
       /\ fst (Plugin.applyEdit Sample.root Sample.parse Sample.generate req w)
          <> Plugin.Sent Plugin.missingFields
       /\ fst (Plugin.applyEdit Sample.root Sample.parse Sample.generate req w)
          <> Plugin.Sent Plugin.invalidEditId.
Proof.
  apply (listener_request_wellformed Sample.root Sample.parse Sample.generate
           (Listener.Element SamplePage.span) "a.tsx:3:5" "Hi").
  reflexivity.
Defined.

(** The sample page against the sample project: the edit of the span is
    written to [a.tsx] and the whole file is what the parent is told. *)
Example sample_handleInlineEdit :
  Listener.handleInlineEdit
    (Listener.devServer Sample.root Sample.parse Sample.generate
       (fun _ w => (None, w)))
    (Listener.Element SamplePage.span) Sample.disk
  = (Some {| Listener.type := "editApplied";
             Listener.editId := "a.tsx:3:5";
             Listener.newValue := Some (Sample.editedContent "Hi");
             Listener.targetOrigin := "http://localhost:3000" |},
     Run.written Sample.path (Sample.editedContent "Hi") Sample.disk).
Proof. vm_compute. reflexivity. Qed.

Lemma getLineColFromOffset_monotone_witness :
  (1 < 2 -> Draft.before (1, 2) (2, 1))
  /\ ((1, 2) = (2, 1) -> 1 = 2).
Proof.
  apply (getLineColFromOffset_monotone SamplePage.twoLines 1 2 (1, 2) (2, 1));
    reflexivity.
Defined.

Lemma stamped_identifier_reaches_file_witness :
  exists editId targetLine targetColumn target,
    Ast.idAttribute "a.tsx:3:5" = Ast.idAttribute editId
    /\ Path.resolve Sample.root (Js.join "/" ["a.tsx"]) = Sample.path
    /\ Run.reachesLocate Sample.root Sample.parse
         (Listener.applyEditRequest editId "Hi") Sample.disk
         "Hi" (Js.join "/" ["a.tsx"]) targetLine targetColumn
         Sample.content Sample.tree
    /\ Ast.locate targetLine targetColumn Sample.tree = Some target
    /\ Tree.opens_at targetLine targetColumn (snd target) = true.
Proof.
  apply (stamped_identifier_reaches_file Sample.parse
           Sample.root Sample.path SamplePage.rootSegs ["a.tsx"]
           Sample.disk Sample.content "Hi" Sample.tree
           (Some {| Ast.line := 3; Ast.column := 4 |}) "p" []).
  - reflexivity.
  - reflexivity.
  - repeat constructor.
  - repeat constructor.
  - discriminate.
  - reflexivity.
  - reflexivity.
  - reflexivity.
  - reflexivity.
  - simpl. tauto.
  - reflexivity.
Defined.

Lemma stamped_identifier_refused_witness :
  Plugin.applyEdit Sample.root Sample.parse Sample.generate
    (Listener.applyEditRequest
       (Codec.formatEditId
          (Shape.webRelativeFilePath Sample.root "/srv/poc-preview/a..b.tsx") 3 5)
       "Hi") Sample.disk
  = (Plugin.Sent Plugin.invalidPath, Sample.disk).
Proof.
  apply (stamped_identifier_refused Sample.parse Sample.generate
           Sample.root "/srv/poc-preview/a..b.tsx"
           SamplePage.rootSegs SamplePage.dotted Sample.disk "Hi" 3 5).
  - reflexivity.
  - reflexivity.
  - repeat constructor.
  - repeat constructor.
  - discriminate.
  - reflexivity.
Defined.

(** The dotted file is one [transform] would stamp. *)
Example sample_dotted_transformable :
  Plugin.transformable Sample.root "/srv/poc-preview/a..b.tsx" = true.
Proof. reflexivity. Qed.

(** ** Directories beside the project root *)

Section Sibling.

Import Ast Plugin Run Layout.
Local Open Scope list_scope.

Lemma append_same_nil (d s : string) : d = (d ++ s)%string -> s = ""%string.
Proof.
  induction d as [|c d IH]; [now rewrite append_nil_l|].
  rewrite append_cons. intros [= H]. now apply IH.
Qed.

Lemma extends_app (pre a b : list string) :
  Run.extends (pre ++ a) (pre ++ b) = Run.extends a b.
Proof.
  induction pre as [|x pre IH]; [reflexivity|].
  simpl. now rewrite String.eqb_refl.
Qed.

(** The joined path of a sibling starts like the joined path of the
    directory whose name it extends. *)
Lemma join_sibling (pre rel : list string) (d suffix : string) :
  exists rest,
    Js.join "/" (pre ++ (d ++ suffix)%string :: rel)
    = (Js.join "/" (pre ++ [d]) ++ rest)%string.
Proof.
  unfold Js.join. induction pre as [|x pre IH].
  - destruct rel as [|y rel'].
    + exists suffix. reflexivity.
    + exists (suffix ++ "/" ++ String.concat "/" (y :: rel'))%string.
      change ([] ++ (d ++ suffix)%string :: y :: rel')
        with ((d ++ suffix)%string :: y :: rel').
      rewrite concat_cons by discriminate. simpl. now rewrite append_assoc.
  - destruct IH as [rest IH]. exists rest.
    change ((x :: pre) ++ (d ++ suffix)%string :: rel)
      with (x :: (pre ++ (d ++ suffix)%string :: rel)).
    change ((x :: pre) ++ [d]) with (x :: (pre ++ [d])).
    rewrite !concat_cons by (now destruct pre).
    now rewrite IH, !append_assoc.
Qed.

Lemma resolve_absolute (from : string) (segs : list string) :
  Forall (fun seg => segment seg = true) segs ->
  Path.resolve from (Path.of_segments segs) = Path.of_segments segs.
Proof.
  intros Hall. unfold Path.resolve.
  assert (Habsolute : Js.startsWith "/" (Path.of_segments segs) = true).
  { unfold Js.startsWith, Path.of_segments. cbn [String.prefix].
    destruct (ascii_dec "/" "/"); [|congruence].
    now destruct (Js.join "/" segs). }
  rewrite Habsolute. now rewrite segments_of_segments.
Qed.

Context (parse : string -> option node).
Context (generate : node -> string -> option string).

(** X19: the prefix test lets sibling directories through, whatever the
    root.  A file in a directory beside the project root whose name
    starts with the root's name is not below the root, yet a request
    that names it by its absolute path passes the path test, reaches the
    locate step on that file's tree, and the file is read. *)
Theorem applyEdit_reaches_sibling
    (VITE_PROJECT_ROOT abs : string) (pre rel : list string) (d suffix : string)
    (w : world) (editId newValue : string) (targetLine targetColumn : Z)
    (content : string) (babelAst : node) :
  VITE_PROJECT_ROOT = Path.of_segments (pre ++ [d]) ->
  abs = Path.of_segments (pre ++ (d ++ suffix)%string :: rel) ->
  Forall (fun seg => segment seg = true) (pre ++ [d]) ->
  Forall (fun seg => segment seg = true) (pre ++ (d ++ suffix)%string :: rel) ->
  suffix <> ""%string ->
  Js.includes ".." abs = false ->
  Js.includes "node_modules" abs = false ->
  Codec.parseEditId editId = Some (abs, targetLine, targetColumn) ->
  files w !! abs = Some content ->
  parse content = Some babelAst ->
  descendant VITE_PROJECT_ROOT abs = false
  /\ reachesLocate VITE_PROJECT_ROOT parse
       (Listener.applyEditRequest editId newValue) w
       newValue abs targetLine targetColumn content babelAst
  /\ In (ReadFile abs)
        (calls (snd (applyEdit VITE_PROJECT_ROOT parse generate
                       (Listener.applyEditRequest editId newValue) w))).
Proof.
  intros -> -> Hroot Habs Hsuffix Hdots Hmodules Hid Hfile Hparse.
  set (root := Path.of_segments (pre ++ [d])) in *.
  set (abs := Path.of_segments (pre ++ (d ++ suffix)%string :: rel)) in *.
  assert (Hresolve : Path.resolve root abs = abs)
    by now apply resolve_absolute.
  assert (Hreach : reachesLocate root parse
                     (Listener.applyEditRequest editId newValue) w
                     newValue abs targetLine targetColumn content babelAst).
  { exists editId. split; [reflexivity|]. split; [reflexivity|].
    split; [exact Hid|]. rewrite Hresolve. split; [|split; assumption].
    unfold pathRefused. rewrite Hdots, Hmodules.
    destruct (join_sibling pre rel d suffix) as [rest Hjoin].
    unfold root, abs, Path.of_segments, Js.startsWith.
    rewrite Hjoin, <- append_cons, prefix_append. reflexivity. }
  split; [|split; [exact Hreach|]].
  - unfold descendant, root, abs.
    rewrite !segments_of_segments by assumption.
    rewrite extends_app. simpl.
    destruct (String.eqb_spec d (d ++ suffix)) as [Heq|_]; [|reflexivity].
    now apply append_same_nil in Heq.
  - rewrite (applyEdit_reachesLocate _ _ generate _ _ _ _ _ _ _ _ Hreach), Hresolve.
    destruct (locate targetLine targetColumn babelAst) as [target|];
      [|simpl; apply in_or_app; right; now left].
    destruct (modifyParent newValue target) as [mutated|];
      [|simpl; apply in_or_app; right; now left].
    unfold committed. rewrite Hresolve.
    destruct (generate mutated content); simpl; apply in_or_app; right; now left.
Qed.

End Sibling.

Lemma applyEdit_reaches_sibling_witness :
  Run.descendant Sample.root Sample.siblingPath = false
  /\ Run.reachesLocate Sample.root Sample.parse
       (Listener.applyEditRequest "/srv/poc-preview-old/a.tsx:3:5" "Hi")
       Sample.siblingDisk "Hi" Sample.siblingPath 3 5 Sample.content Sample.tree
  /\ In (Plugin.ReadFile Sample.siblingPath)
        (Plugin.calls
           (snd (Plugin.applyEdit Sample.root Sample.parse Sample.generate
                   (Listener.applyEditRequest "/srv/poc-preview-old/a.tsx:3:5" "Hi")
                   Sample.siblingDisk))).
Proof.
  apply (applyEdit_reaches_sibling Sample.parse Sample.generate
           Sample.root Sample.siblingPath ["srv"] ["a.tsx"] "poc-preview" "-old"
           Sample.siblingDisk "/srv/poc-preview-old/a.tsx:3:5" "Hi" 3 5
           Sample.content Sample.tree).
  - reflexivity.
  - reflexivity.
  - repeat constructor.
  - repeat constructor.
  - discriminate.
  - reflexivity.
  - reflexivity.
  - reflexivity.
  - reflexivity.
  - reflexivity.
Defined.
